(** * git_stat_script: per-author line statistics from [git blame]

    A shallow embedding of [git_stat_script.py] and the properties of its
    pipeline: name normalization, the alias loader, the blame aggregator
    and the grouping stage of the reporter.

    Python strings are sequences of Unicode code points; they are lists of
    [N] here.  The alias mapping, a [dict] that is only ever written by key
    and read by key, is a [gmap].  The two counters are [defaultdict(int)]s
    whose iteration order (insertion order) feeds the report, so they are
    association lists kept in insertion order. *)

From Stdlib Require Import ZArith NArith List Ascii String DecimalString.
From stdpp Require Import base tactics option list gmap strings sorting.

Local Open Scope Z_scope.

(** ** Strings *)

Abbreviation text := (list N).

(** An ASCII literal as a Python string. *)
Definition str (s : string) : text :=
  (fun a => N_of_ascii a) <$> list_ascii_of_string s.

(** One character of an ASCII literal, as a code point. *)
Definition chr (a : ascii) : N := N_of_ascii a.

(** ["\t"] *)
Definition TAB : text := [9%N].

(** ["\n"] *)
Definition NEWLINE : text := [10%N].

(** [str.isspace] on one code point: the code points CPython's
    [_PyUnicode_IsWhitespace] accepts. *)
Definition isspace (c : N) : bool :=
  ((9 <=? c) && (c <=? 13) || (28 <=? c) && (c <=? 32)
   || (c =? 0x85) || (c =? 0xa0) || (c =? 0x1680)
   || (0x2000 <=? c) && (c <=? 0x200a)
   || (c =? 0x2028) || (c =? 0x2029) || (c =? 0x202f)
   || (c =? 0x205f) || (c =? 0x3000))%N.

Fixpoint lstrip (s : text) : text :=
  match s with
  | c :: s' => if isspace c then lstrip s' else s
  | [] => []
  end.

Definition rstrip (s : text) : text := rev (lstrip (rev s)).

(** [s.strip()] *)
Definition strip (s : text) : text := rstrip (lstrip s).

(** [s.startswith(p)] *)
Fixpoint startswith (s p : text) {struct p} : bool :=
  match p, s with
  | [], _ => true
  | _ :: _, [] => false
  | a :: p', b :: s' => (a =? b)%N && startswith s' p'
  end.

(** [c in s] for a one-character string [c] *)
Definition contains (c : N) (s : text) : bool := existsb (N.eqb c) s.

(** [s.split(c)] for a one-character separator: never the empty list. *)
Fixpoint split (c : N) (s : text) : list text :=
  match s with
  | [] => [[]]
  | x :: s' =>
      if (x =? c)%N then [] :: split c s'
      else match split c s' with
           | h :: t => (x :: h) :: t
           | [] => [[x]]
           end
  end.

(** [s.split(c, 1)] as a pair, for an [s] that contains [c]; [None] when it
    does not (the source asks [c in s] first). *)
Fixpoint split_once (c : N) (s : text) : option (text * text) :=
  match s with
  | [] => None
  | x :: s' =>
      if (x =? c)%N then Some ([], s')
      else match split_once c s' with
           | Some (a, b) => Some (x :: a, b)
           | None => None
           end
  end.

(** [c.join(pieces)] for a one-character string [c] *)
Fixpoint join (c : N) (pieces : list text) : text :=
  match pieces with
  | [] => []
  | piece :: pieces' =>
      match pieces' with
      | [] => piece
      | _ :: _ => piece ++ c :: join c pieces'
      end
  end.

(** The line boundaries of [str.splitlines]. *)
Definition is_linebreak (c : N) : bool :=
  ((10 <=? c) && (c <=? 13) || (28 <=? c) && (c <=? 30)
   || (c =? 0x85) || (c =? 0x2028) || (c =? 0x2029))%N.

(** [after_cr] is set right after a carriage return, whose following line
    feed belongs to the same boundary; [cur] is the current line, reversed. *)
Fixpoint splitlines_from (after_cr : bool) (cur : text) (s : text) : list text :=
  match s with
  | [] => match cur with [] => [] | _ => [rev cur] end
  | c :: s' =>
      if after_cr && (c =? 10)%N then splitlines_from false cur s'
      else if is_linebreak c then rev cur :: splitlines_from (c =? 13)%N [] s'
      else splitlines_from false (c :: cur) s'
  end.

(** [s.splitlines()] *)
Definition splitlines (s : text) : list text := splitlines_from false [] s.

(** ** The Unicode database

    [str.lower] and [unicodedata.normalize('NFKC', _)] are table driven; the
    tables belong to the Python runtime, not to the script.  The script is
    modelled over any pair of such functions. *)
Class Unicode := {
  str_lower : text -> text;
  normalize_NFKC : text -> text
}.

(** ** Counters: [defaultdict(int)] in insertion order *)

Abbreviation counter := (list (text * Z)).

Module Counter.

(** [list(d.keys())] *)
Definition keys (d : counter) : list text := fst <$> d.

(** [d.get(k)] *)
Fixpoint get (k : text) (d : counter) : option Z :=
  match d with
  | [] => None
  | (k', v) :: d' => if decide (k' = k) then Some v else get k d'
  end.

(** [d.get(k, 0)]: what reading [d[k]] yields on a [defaultdict(int)] *)
Definition count (k : text) (d : counter) : Z := default 0 (get k d).

(** [d[k] += n]: an absent key is first created with value 0, at the end. *)
Fixpoint add (k : text) (n : Z) (d : counter) : counter :=
  match d with
  | [] => [(k, 0 + n)]
  | (k', v) :: d' =>
      if decide (k' = k) then (k', v + n) :: d' else (k', v) :: add k n d'
  end.

(** [sum(d.values())] *)
Definition total (d : counter) : Z := foldr (fun kv acc => kv.2 + acc) 0 d.

End Counter.

(** ** The runtime: exceptions, the file system, subprocesses, the console

    Everything the script reaches outside itself.  An exception is one of
    the two the script raises itself, or any other subclass of [Exception]
    raised by the runtime (an [OSError] from [open] or [subprocess.run], a
    [UnicodeDecodeError] while decoding, ...); [message] is [str(e)]. *)
Inductive exn :=
| ValueError (msg : text)
| RuntimeError (msg : text)
| OtherError (msg : text).

Definition message (e : exn) : text :=
  match e with ValueError m | RuntimeError m | OtherError m => m end.

(** How a call ends: it returns a value or raises. *)
Inductive result (A : Type) :=
| Return (a : A)
| Raise (e : exn).
Arguments Return {A} a.
Arguments Raise {A} e.

(** [subprocess.CompletedProcess] *)
Record completed := {
  returncode : Z;
  stdout : text;
  stderr : text
}.

(** The table the reporter sorts, prints and plots: the rows of the
    [DataFrame], one [(Author, Lines)] pair each. *)
Abbreviation rows := (list (text * Z)).

(** What the script asks of its surroundings.  Paths are resolved against
    the working directory, so each query takes it as its first argument.
    - [isdir], [isfile]: [os.path.isdir], [os.path.isfile];
    - [read_lines]: [open(path, 'r', encoding='utf-8')] and the iteration over
      its lines, which yields all of them or raises;
    - [run]: [subprocess.run(argv, capture_output=True, text=True, ...)];
    - [script_dir]: [os.path.dirname(os.path.abspath(__file__))];
    - [sort_values]: [df.sort_values(by='Lines', ascending=False)
      .reset_index(drop=True)], [to_string]: [df.to_string(index=False)]. *)
Class System := {
  isdir : text -> text -> bool;
  isfile : text -> text -> bool;
  read_lines : text -> text -> result (list text);
  run : text -> list text -> result completed;
  script_dir : text -> text;
  sort_values : rows -> rows;
  to_string : rows -> text
}.

(** The figure handed to [plt.show()]: the bar chart's x and heights, the
    pie chart's values and labels. *)
Record figure := {
  bar_x : list text;
  bar_height : list Z;
  pie_x : list Z;
  pie_labels : list text
}.

(** The state of the running process that the script can change: its
    working directory, the lines it has printed, the figures it has shown. *)
Record process := {
  cwd : text;
  console : list text;
  shown : list figure
}.

(** The calls into the runtime that the script makes outside every
    [try ... except]: [os.getcwd()], [os.chdir(path)], [print(line)], the
    making of the sorted table from the rows ([pd.DataFrame] and
    [sort_values]), and the charting of a figure, from [plt.figure] to
    [plt.show()]. *)
Inductive call :=
| Getcwd
| Chdir (path : text)
| Print (line : text)
| Frame (table : rows)
| Plot (fig : figure).

(** Which of these calls raise, in which state of the process, and what:
    [print] raises when the console cannot encode or write the line,
    [os.chdir] when the directory cannot be entered, [os.getcwd] when the
    working directory is gone, pandas when it cannot make the table, the
    charting when the backend has no display. *)
Class Faults := {
  fault : process -> call -> option exn
}.

(** A computation of the script: it reads and changes the process state and
    returns or raises.  What raises is what the script raises itself, what
    [read_lines] and [run] raise, and the [fault]s of the calls above; the
    string functions and the path functions of [os.path] are taken to
    return. *)
Definition M (A : Type) : Type := process -> result A * process.

#[global] Instance M_ret : MRet M := fun A a s => (Return a, s).

#[global] Instance M_bind : MBind M := fun A B f m s =>
  match m s with
  | (Return a, s') => f a s'
  | (Raise e, s') => (Raise e, s')
  end.

(** [raise e] *)
Definition raise {A} (e : exn) : M A := fun s => (Raise e, s).

(** [try: body finally: cleanup] *)
Definition try_finally {A} (body : M A) (cleanup : M unit) : M A := fun s =>
  let '(r, s1) := body s in
  match cleanup s1 with
  | (Return _, s2) => (r, s2)
  | (Raise e, s2) => (Raise e, s2)
  end.

(** [try: body except Exception as e: handler] *)
Definition try_except {A} (body : M A) (handler : exn -> M A) : M A := fun s =>
  match body s with
  | (Return a, s1) => (Return a, s1)
  | (Raise e, s1) => handler e s1
  end.

(** [print(line)] *)
Definition print `{F : Faults} (line : text) : M unit := fun s =>
  match fault s (Print line) with
  | Some e => (Raise e, s)
  | None =>
      (Return tt,
       {| cwd := cwd s; console := console s ++ [line]; shown := shown s |})
  end.

(** The charting of [fig]: [plt.figure(...)] to [plt.show()] *)
Definition plt_show `{F : Faults} (fig : figure) : M unit := fun s =>
  match fault s (Plot fig) with
  | Some e => (Raise e, s)
  | None =>
      (Return tt,
       {| cwd := cwd s; console := console s; shown := shown s ++ [fig] |})
  end.

(** [os.getcwd()] *)
Definition os_getcwd `{F : Faults} : M text := fun s =>
  match fault s Getcwd with
  | Some e => (Raise e, s)
  | None => (Return (cwd s), s)
  end.

(** [s.endswith(p)] *)
Definition endswith (s p : text) : bool := startswith (rev s) (rev p).

(** [os.path.join(a, b)] of [posixpath] *)
Definition os_path_join (a b : text) : text :=
  if startswith b (str "/") then b
  else if bool_decide (a = []) || endswith a (str "/") then a ++ b
  else a ++ str "/" ++ b.

(** [os.chdir(path)]: a relative [path] is taken from the working directory. *)
Definition os_chdir `{F : Faults} (path : text) : M unit := fun s =>
  match fault s (Chdir path) with
  | Some e => (Raise e, s)
  | None =>
      (Return tt,
       {| cwd := os_path_join (cwd s) path; console := console s;
          shown := shown s |})
  end.

(** [str(n)] for a non-negative integer *)
Definition decimal (n : nat) : text :=
  str (NilZero.string_of_uint (Nat.to_uint n)).

Section Script.
Context `{U : Unicode} `{OS : System} `{F : Faults}.

(** ** [normalize_name] *)
Definition normalize_name (name : text) : text :=
  normalize_NFKC (str_lower (strip name)).

(** ** The blame aggregator: parsing one file's porcelain output *)

(** The body of [for line in result.stdout.splitlines()]. *)
Definition blame_line (author_counts : counter) (line : text) : counter :=
  if startswith line TAB then author_counts
  else if startswith line (str "author ") then
    let author := strip (drop (length (str "author ")) line) in
    Counter.add author 1 author_counts
  else author_counts.

Definition blame_lines (author_counts : counter) (lines : list text) : counter :=
  foldl blame_line author_counts lines.

(** ** The reporter: grouping *)

(** [group_mapping.get(normalize_name(author), author)] *)
Definition group_of (group_mapping : gmap text text) (author : text) : text :=
  default author (group_mapping !! normalize_name author).

(** The loop that builds [grouped_counts] from [author_counts.items()]. *)
Definition group_counts (group_mapping : gmap text text) (author_counts : counter)
  : counter :=
  foldl (fun grouped '(author, count) =>
           Counter.add (group_of group_mapping author) count grouped)
        [] author_counts.

(** ** The alias loader *)

(** What one line of the grouping file says: [None] for a line the loop
    skips with [continue], else the group name and the aliases it lists. *)
Definition parse_grouping_line (line : text) : option (text * list text) :=
  let line := strip line in
  if bool_decide (line = []) || startswith line (str "#") then None
  else if negb (contains (chr ":") line) then None
  else match split_once (chr ":") line with
       | None => None
       | Some (group_name, aliases_str) =>
           Some (strip group_name,
                 strip <$> filter (fun alias => strip alias <> [])
                                  (split (chr ",") aliases_str))
       end.

(** The body of [for line in f]. *)
Definition grouping_line (mapping : gmap text text) (line : text)
  : gmap text text :=
  match parse_grouping_line line with
  | None => mapping
  | Some (group_name, aliases) =>
      foldl (fun mapping alias => <[normalize_name alias := group_name]> mapping)
            mapping aliases
  end.

(** The queries of the runtime, asked from the current working directory. *)
Definition os_path_isdir (path : text) : M bool :=
  fun s => (Return (isdir (cwd s) path), s).

Definition os_path_isfile (path : text) : M bool :=
  fun s => (Return (isfile (cwd s) path), s).

Definition open_lines (path : text) : M (list text) :=
  fun s => (read_lines (cwd s) path, s).

Definition subprocess_run (argv : list text) : M completed :=
  fun s => (run (cwd s) argv, s).

(** [load_grouping_mapping].  The iteration over the file raises before
    the mapping is returned or not at all, and the handler discards what
    was read, so reading the lines first and folding over them afterwards
    returns what the source returns. *)
Definition load_grouping_mapping (grouping_file_path : text)
  : M (gmap text text) :=
  found ← os_path_isfile grouping_file_path;
  if negb found then
    print (str "Warning: Grouping file not found: " ++ grouping_file_path);;
    mret ∅
  else
    try_except
      (lines ← open_lines grouping_file_path;
       mret (foldl grouping_line ∅ lines))
      (fun e =>
         print (str "Failed to open grouping file " ++ grouping_file_path
                ++ str ": " ++ message e);;
         mret ∅).

(** ** The blame aggregator: the loop over the tracked files *)

Definition blame_argv (file_path : text) : list text :=
  [str "git"; str "blame"; str "-p"; str "--"; file_path].

(** The [try] block of the loop body.  [subprocess.run] is the only call in
    it that can raise, and it does so before any count is touched. *)
Definition blame_file (author_counts : counter) (file_path : text) : M counter :=
  try_except
    (result ← subprocess_run (blame_argv file_path);
     if negb (returncode result =? 0) || bool_decide (strip (stdout result) = [])
     then mret author_counts
     else mret (blame_lines author_counts (splitlines (stdout result))))
    (fun _ => mret author_counts).

(** [for index, file_path in enumerate(files, start=1)], from [index] on. *)
Fixpoint blame_files (total_files index : nat) (author_counts : counter)
    (files : list text) : M counter :=
  match files with
  | [] => mret author_counts
  | file_path :: files' =>
      (if (index mod 100 =? 0)%nat || (index =? total_files)%nat then
         print (str "Processing file " ++ decimal index ++ str "/"
                ++ decimal total_files ++ str ": " ++ file_path)
       else mret tt);;
      author_counts ← blame_file author_counts file_path;
      blame_files total_files (S index) author_counts files'
  end.

(** ** [main] *)

(** The figure of the table [df]: [plt.bar(df['Author'], df['Lines'])] and
    [plt.pie(df['Lines'], labels=df['Author'])]. *)
Definition figure_of (df : rows) : figure :=
  {| bar_x := fst <$> df; bar_height := snd <$> df;
     pie_x := snd <$> df; pie_labels := fst <$> df |}.

(** [pd.DataFrame(table, columns=[...])] and [df.sort_values(...)] *)
Definition pd_frame (table : rows) : M rows := fun s =>
  match fault s (Frame table) with
  | Some e => (Raise e, s)
  | None => (Return (sort_values table), s)
  end.

(** From [grouped_counts] to the charts: the table is
    [list(grouped_counts.items())], sorted. *)
Definition report (grouped_counts : counter) : M unit :=
  df ← pd_frame grouped_counts;
  print (NEWLINE ++ str "Lines of Code per Author/Group:");;
  print (to_string df);;
  plt_show (figure_of df).

(** The [try] block of [main]. *)
Definition analyse (group_mapping : gmap text text) : M unit :=
  result ← subprocess_run [str "git"; str "ls-files"];
  if negb (returncode result =? 0) then
    raise (RuntimeError (str "Failed to get list of files: " ++ stderr result))
  else
    let files := splitlines (stdout result) in
    let total_files := length files in
    print (str "Found " ++ decimal total_files ++ str " files to analyze.");;
    author_counts ← blame_files total_files 1 [] files;
    print (str "Processing complete.");;
    if bool_decide (author_counts = []) then
      print (str "No data available for statistics.")
    else
      report (group_counts group_mapping author_counts).

(** [if grouping_file: ... else: ...]: [None] and the empty string are false. *)
Definition choose_grouping_file (grouping_file : option text) : M text :=
  fun s =>
    match grouping_file with
    | Some path =>
        if bool_decide (path = []) then
          (Return (os_path_join (script_dir (cwd s)) (str "grouping.txt")), s)
        else (Return path, s)
    | None => (Return (os_path_join (script_dir (cwd s)) (str "grouping.txt")), s)
    end.

Definition main (repo_path : text) (grouping_file : option text) : M unit :=
  is_dir ← os_path_isdir repo_path;
  if negb is_dir then
    raise (ValueError (str "Path " ++ repo_path ++ str " is not a valid directory"))
  else
    let git_dir := os_path_join repo_path (str ".git") in
    is_repo ← os_path_isdir git_dir;
    if negb is_repo then
      raise (ValueError (str "Path " ++ repo_path ++ str " is not a Git repository"))
    else
      original_dir ← os_getcwd;
      os_chdir repo_path;;
      grouping_file_path ← choose_grouping_file grouping_file;
      print (str "Looking for grouping file at: " ++ grouping_file_path);;
      group_mapping ← load_grouping_mapping grouping_file_path;
      print (str "Loaded " ++ decimal (size group_mapping) ++ str " mappings");;
      try_finally (analyse group_mapping) (os_chdir original_dir).

(** ** The script's effects, read off its definitions

    The functions below compute what the loops leave behind, without the
    monad; the lemmas of the second part relate them to the computations
    above. *)

(** The process after [os.chdir(path)]. *)
Definition entered (path : text) (s : process) : process :=
  {| cwd := os_path_join (cwd s) path; console := console s; shown := shown s |}.

(** The process after it has printed [lines]. *)
Definition printed (lines : list text) (s : process) : process :=
  {| cwd := cwd s; console := console s ++ lines; shown := shown s |}.

(** What the body of the loop over the files leaves in [author_counts] when
    [git blame] ends as [r]. *)
Definition blame_counts (author_counts : counter) (r : result completed)
  : counter :=
  match r with
  | Raise _ => author_counts
  | Return result =>
      if negb (returncode result =? 0) || bool_decide (strip (stdout result) = [])
      then author_counts
      else blame_lines author_counts (splitlines (stdout result))
  end.

(** [author_counts] after the loop over [files] in the directory [dir]. *)
Definition aggregate (dir : text) (author_counts : counter) (files : list text)
  : counter :=
  foldl (fun author_counts file_path =>
           blame_counts author_counts (run dir (blame_argv file_path)))
        author_counts files.

(** The progress lines of the loop over [files], from [index] on. *)
Fixpoint progress (total_files index : nat) (files : list text) : list text :=
  match files with
  | [] => []
  | file_path :: files' =>
      (if (index mod 100 =? 0)%nat || (index =? total_files)%nat then
         [str "Processing file " ++ decimal index ++ str "/"
          ++ decimal total_files ++ str ": " ++ file_path]
       else [])
      ++ progress total_files (S index) files'
  end.

(** [git blame] of [file_path] in [dir] fails: it raises, exits non-zero,
    or prints nothing but white space. *)
Definition blame_fails (dir file_path : text) : Prop :=
  match run dir (blame_argv file_path) with
  | Raise _ => True
  | Return result => returncode result <> 0 \/ strip (stdout result) = []
  end.

(** [git ls-files] in [dir] fails: it raises or exits non-zero. *)
Definition listing_fails (dir : text) : Prop :=
  match run dir [str "git"; str "ls-files"] with
  | Raise _ => True
  | Return result => returncode result <> 0
  end.

(** The tracked files [git ls-files] lists in [dir] (none if it raises). *)
Definition tracked_files (dir : text) : list text :=
  match run dir [str "git"; str "ls-files"] with
  | Raise _ => []
  | Return result => splitlines (stdout result)
  end.

(** The grouping loop from any intermediate [grouped_counts]. *)
Definition group_step (group_mapping : gmap text text) (grouped : counter)
    (item : text * Z) : counter :=
  let '(author, count) := item in
  Counter.add (group_of group_mapping author) count grouped.

(** The runs of [main repo_path _] from the process [s]: how each ends, and
    the process it leaves.  [lines] are the lines printed on the way. *)
Inductive main_run (repo_path : text) (s : process)
  : result unit -> process -> Prop :=
| NotADirectory :
    isdir (cwd s) repo_path = false ->
    main_run repo_path s
      (Raise (ValueError (str "Path " ++ repo_path
                          ++ str " is not a valid directory"))) s
| NotARepository :
    isdir (cwd s) repo_path = true ->
    isdir (cwd s) (os_path_join repo_path (str ".git")) = false ->
    main_run repo_path s
      (Raise (ValueError (str "Path " ++ repo_path
                          ++ str " is not a Git repository"))) s
| ListingRaised (e : exn) (lines : list text) :
    isdir (cwd s) repo_path = true ->
    isdir (cwd s) (os_path_join repo_path (str ".git")) = true ->
    run (os_path_join (cwd s) repo_path) [str "git"; str "ls-files"] = Raise e ->
    main_run repo_path s (Raise e)
      (entered (cwd s) (printed lines (entered repo_path s)))
| ListingFailed (result : completed) (lines : list text) :
    isdir (cwd s) repo_path = true ->
    isdir (cwd s) (os_path_join repo_path (str ".git")) = true ->
    run (os_path_join (cwd s) repo_path) [str "git"; str "ls-files"]
    = Return result ->
    returncode result <> 0 ->
    main_run repo_path s
      (Raise (RuntimeError (str "Failed to get list of files: "
                            ++ stderr result)))
      (entered (cwd s) (printed lines (entered repo_path s)))
| NoData (result : completed) (lines : list text) :
    isdir (cwd s) repo_path = true ->
    isdir (cwd s) (os_path_join repo_path (str ".git")) = true ->
    run (os_path_join (cwd s) repo_path) [str "git"; str "ls-files"]
    = Return result ->
    returncode result = 0 ->
    aggregate (os_path_join (cwd s) repo_path) [] (splitlines (stdout result))
    = [] ->
    main_run repo_path s (Return tt)
      (entered (cwd s)
         (printed (lines ++ [str "No data available for statistics."])
                  (entered repo_path s)))
| Charts (result : completed) (group_mapping : gmap text text)
    (lines : list text) :
    isdir (cwd s) repo_path = true ->
    isdir (cwd s) (os_path_join repo_path (str ".git")) = true ->
    run (os_path_join (cwd s) repo_path) [str "git"; str "ls-files"]
    = Return result ->
    returncode result = 0 ->
    aggregate (os_path_join (cwd s) repo_path) [] (splitlines (stdout result))
    <> [] ->
    main_run repo_path s (Return tt)
      (entered (cwd s)
         {| cwd := os_path_join (cwd s) repo_path;
            console := console s ++ lines;
            shown := shown s
                     ++ [figure_of
                           (sort_values
                              (group_counts group_mapping
                                 (aggregate (os_path_join (cwd s) repo_path) []
                                            (splitlines (stdout result)))))] |}).

End Script.

(** ** A fragment of the Unicode database

    [str.lower] and NFKC as the Unicode Character Database defines them on
    the strings made of ASCII characters, U+2120 SERVICE MARK and U+2122
    TRADE MARK SIGN: the ASCII capitals have the ASCII small letters as
    lower case and nothing else changes; the two symbols have the
    compatibility decompositions [SM] and [TM] and every ASCII character is
    its own normal form.  Other code points are left alone, which is not what
    the database says of them: the fragment only instantiates statements
    that hold of every [Unicode]. *)
Definition ascii_lower (c : N) : N :=
  if ((65 <=? c) && (c <=? 90))%N then (c + 32)%N else c.

Definition compatibility (c : N) : text :=
  if (c =? 0x2120)%N then str "SM"
  else if (c =? 0x2122)%N then str "TM"
  else [c].

Definition unicode_fragment : Unicode :=
  {| str_lower := fun s => ascii_lower <$> s;
     normalize_NFKC := fun s => flat_map compatibility s |}.

(** Code points below 128. *)
Definition is_ascii (s : text) : Prop := Forall (fun c => (c < 128)%N) s.

(** ** A small repository

    A checkout at [/work/repo] that tracks [a.py], one line by Jane Doe,
    and [logo.png], which [git blame] refuses; the tool is installed at
    [/opt/tool] with a two-line [grouping.txt]. *)
Definition demo_blame : text :=
  str "abcd123 1 1 1" ++ NEWLINE ++ str "author Jane Doe" ++ NEWLINE
  ++ TAB ++ str "println()" ++ NEWLINE
  ++ str "author-mail <jane@x.com>" ++ NEWLINE.

Definition demo_run (dir : text) (argv : list text) : result completed :=
  if bool_decide (dir = str "/work/repo") then
    if bool_decide (argv = [str "git"; str "ls-files"]) then
      Return {| returncode := 0;
                stdout := str "a.py" ++ NEWLINE ++ str "logo.png" ++ NEWLINE;
                stderr := [] |}
    else if bool_decide (argv = blame_argv (str "a.py")) then
      Return {| returncode := 0; stdout := demo_blame; stderr := [] |}
    else
      Return {| returncode := 128; stdout := [];
                stderr := str "fatal: cannot blame" |}
  else
    Return {| returncode := 128; stdout := [];
              stderr := str "fatal: not a git repository" |}.

Definition demo_table (df : rows) : text :=
  flat_map (fun row => row.1 ++ str " " ++ decimal (Z.to_nat row.2) ++ NEWLINE) df.

(** The order of [sort_values(by='Lines', ascending=False)]. *)
Definition more_lines (a b : text * Z) : Prop := b.2 <= a.2.

#[global] Instance more_lines_dec : RelDecision more_lines :=
  fun a b => decide (b.2 <= a.2).

Definition demo_system : System :=
  {| isdir := fun dir path =>
       bool_decide (os_path_join dir path
                    ∈ [str "/home/dev"; str "/work/repo"; str "/work/repo/.git";
                       str "/opt/tool"]);
     isfile := fun dir path =>
       bool_decide (os_path_join dir path = str "/opt/tool/grouping.txt");
     read_lines := fun dir path =>
       if bool_decide (os_path_join dir path = str "/opt/tool/grouping.txt")
       then Return [str "A: x, y" ++ NEWLINE; str "B: x" ++ NEWLINE]
       else Raise (OtherError (str "[Errno 2] No such file or directory"));
     run := demo_run;
     script_dir := fun _ => str "/opt/tool";
     sort_values := merge_sort more_lines;
     to_string := demo_table |}.

Definition demo_process : process :=
  {| cwd := str "/home/dev"; console := []; shown := [] |}.

(** A lone surrogate: a code point that UTF-8 has no encoding for. *)
Definition is_surrogate (c : N) : bool := ((0xD800 <=? c) && (c <=? 0xDFFF))%N.

(** A console with a strict UTF-8 encoder: [print] raises
    [UnicodeEncodeError] for a line that holds a lone surrogate. *)
Definition strict_console : Faults :=
  {| fault := fun _ c =>
       match c with
       | Print line =>
           if existsb is_surrogate line then
             Some (OtherError (str "'utf-8' codec can't encode character: surrogates not allowed"))
           else None
       | _ => None
       end |}.

(** A machine without a display: the charting raises. *)
Definition headless : Faults :=
  {| fault := fun _ c =>
       match c with
       | Plot _ =>
           Some (OtherError (str "no display name and no $DISPLAY environment variable"))
       | _ => None
       end |}.

(** A grouping file whose name holds the lone surrogate U+DCFF, as
    [sys.argv] holds a byte that is not UTF-8. *)
Definition undecodable_path : text := str "team" ++ [0xDCFF%N] ++ str ".txt".

(** The same checkout before its first commit: [git ls-files] succeeds and
    lists nothing. *)
Definition empty_repository : System :=
  {| isdir := isdir (System:=demo_system);
     isfile := isfile (System:=demo_system);
     read_lines := read_lines (System:=demo_system);
     run := fun _ _ => Return {| returncode := 0; stdout := []; stderr := [] |};
     script_dir := script_dir (System:=demo_system);
     sort_values := sort_values (System:=demo_system);
     to_string := to_string (System:=demo_system) |}.

(** No leading white space. *)
Definition trimmed_left (s : text) : Prop :=
  match s with c :: _ => isspace c = false | [] => True end.

(** The porcelain block of one attributed line. *)
Definition jane_block : list text :=
  [str "abcd123 1 1 1"; str "author Jane Doe"; TAB ++ str "println()";
   str "author-mail <jane@x.com>"].

(** ** More views of the script's effects *)

Section Views.
Context `{U : Unicode} `{OS : System}.

(** The porcelain lines that the loop over the files parses for
    [file_path]: those of the output of [git blame], none when it fails. *)
Definition blame_output (dir file_path : text) : list text :=
  match run dir (blame_argv file_path) with
  | Raise _ => []
  | Return result =>
      if negb (returncode result =? 0) || bool_decide (strip (stdout result) = [])
      then []
      else splitlines (stdout result)
  end.

(** The path [main] hands to the loader when the working directory is
    [dir]: [grouping_file] if it is given and not empty, else [grouping.txt]
    beside the script. *)
Definition grouping_path (grouping_file : option text) (dir : text) : text :=
  match grouping_file with
  | Some path =>
      if bool_decide (path = []) then
        os_path_join (script_dir dir) (str "grouping.txt")
      else path
  | None => os_path_join (script_dir dir) (str "grouping.txt")
  end.

(** The mapping the loader returns for [path] when the working directory
    is [dir]. *)
Definition loaded_mapping (dir path : text) : gmap text text :=
  if isfile dir path then
    match read_lines dir path with
    | Return lines => foldl grouping_line ∅ lines
    | Raise _ => ∅
    end
  else ∅.

End Views.

(** ** The unguarded calls of a run *)

(** The process after the call [c] has returned. *)
Definition after_call (c : call) (s : process) : process :=
  match c with
  | Getcwd => s
  | Chdir path => entered path s
  | Print line => printed [line] s
  | Frame _ => s
  | Plot fig =>
      {| cwd := cwd s; console := console s; shown := shown s ++ [fig] |}
  end.

(** The process after the calls [cs] have returned, in order. *)
Definition after_calls (cs : list call) (s : process) : process :=
  foldl (fun s c => after_call c s) s cs.

(** The figures that the calls [cs] show once they have returned. *)
Definition figures_shown (cs : list call) : list figure :=
  omap (fun c => match c with Plot fig => Some fig | _ => None end) cs.

(** The lines that the calls [cs] print once they have returned. *)
Definition lines_printed (cs : list call) : list text :=
  omap (fun c => match c with Print line => Some line | _ => None end) cs.

(** The calls [cs] made one after the other: the first that raises ends
    the sequence. *)
Fixpoint perform `{F : Faults} (cs : list call) (s : process)
  : result unit * process :=
  match cs with
  | [] => (Return tt, s)
  | c :: cs' =>
      match fault s c with
      | Some e => (Raise e, s)
      | None => perform cs' (after_call c s)
      end
  end.

(** One of the calls [cs], made one after the other from [s], raises: the
    call [c] does, in the process that the calls [before] it leave. *)
Definition refused `{F : Faults} (cs : list call) (s : process) : Prop :=
  exists before c after,
    cs = before ++ c :: after /\ fault (after_calls before s) c <> None.

(** A computation that returns [v] once the calls have returned. *)
Definition returning {A} (v : A) (o : result unit * process)
  : result A * process :=
  (match o.1 with Return _ => Return v | Raise e => Raise e end, o.2).

Section Calls.
Context `{U : Unicode} `{OS : System}.

(** What the loader prints for [path] when the working directory is [dir]:
    the warning, the failure, or nothing. *)
Definition loader_lines (dir path : text) : list text :=
  if isfile dir path then
    match read_lines dir path with
    | Return _ => []
    | Raise e =>
        [str "Failed to open grouping file " ++ path ++ str ": " ++ message e]
    end
  else [str "Warning: Grouping file not found: " ++ path].

(** What [main] prints between [os.chdir(repo_path)] and [try], in the
    working directory [root]. *)
Definition preamble (grouping_file : option text) (root : text) : list text :=
  let path := grouping_path grouping_file root in
  [str "Looking for grouping file at: " ++ path]
  ++ loader_lines root path
  ++ [str "Loaded " ++ decimal (size (loaded_mapping root path))
      ++ str " mappings"].

(** The unguarded calls of the [try] block of [main] in the directory [dir]
    after [git ls-files] has ended as [result] with exit status 0. *)
Definition analysis_calls (group_mapping : gmap text text) (dir : text)
    (result : completed) : list call :=
  let files := splitlines (stdout result) in
  let author_counts := aggregate dir [] files in
  (Print <$> ([str "Found " ++ decimal (length files)
               ++ str " files to analyze."]
              ++ progress (length files) 1 files
              ++ [str "Processing complete."]))
  ++ (if bool_decide (author_counts = []) then
        [Print (str "No data available for statistics.")]
      else
        let grouped_counts := group_counts group_mapping author_counts in
        let df := sort_values grouped_counts in
        [Frame grouped_counts;
         Print (NEWLINE ++ str "Lines of Code per Author/Group:");
         Print (to_string df);
         Plot (figure_of df)]).

(** How a run ends in which the checks pass and every unguarded call
    returns: as [git ls-files] in [dir] lets it. *)
Definition listing_outcome (dir : text) : result unit :=
  match run dir [str "git"; str "ls-files"] with
  | Raise e => Raise e
  | Return result =>
      if returncode result =? 0 then Return tt
      else Raise (RuntimeError (str "Failed to get list of files: "
                                ++ stderr result))
  end.

(** The calls of [main] before its [try]. *)
Definition calls_before_try (repo_path : text) (grouping_file : option text)
    (s : process) : list call :=
  [Getcwd; Chdir repo_path]
  ++ (Print <$> preamble grouping_file (os_path_join (cwd s) repo_path)).

(** The unguarded calls of the [try] block of [main] in the directory
    [root]: none once [git ls-files] has failed. *)
Definition calls_in_try (grouping_file : option text) (root : text)
  : list call :=
  match run root [str "git"; str "ls-files"] with
  | Return result =>
      if returncode result =? 0 then
        analysis_calls (loaded_mapping root (grouping_path grouping_file root))
                       root result
      else []
  | Raise _ => []
  end.

(** The unguarded calls of a run of [main] in which none of them raises,
    in order: none when a check fails; else [os.getcwd()],
    [os.chdir(repo_path)], the prints before the [try], the prints, the
    table and the charting of the [try] block, and
    [os.chdir(original_dir)]. *)
Definition unguarded_calls (repo_path : text) (grouping_file : option text)
    (s : process) : list call :=
  if isdir (cwd s) repo_path
     && isdir (cwd s) (os_path_join repo_path (str ".git"))
  then
    calls_before_try repo_path grouping_file s
    ++ calls_in_try grouping_file (os_path_join (cwd s) repo_path)
    ++ [Chdir (cwd s)]
  else [].

End Calls.

(** ** The run in which no unguarded call raises

    The statements below that name no [Faults] are about this run: every
    [os.getcwd], [os.chdir] and [print] returns, and so do the making of
    the table and the charting.  The last part of the file is about the
    runs in which they raise. *)
#[global] Instance no_faults : Faults := {| fault := fun _ _ => None |}.

(** A character of a blank alias list: white space or a comma. *)
Definition blank_or_comma (c : N) : Prop := isspace c = true \/ c = chr ",".

(** All counts are positive. *)
Definition positive (d : counter) : Prop := Forall (fun item => 0 < item.2) d.

(** All keys are trimmed: [key.strip() == key]. *)
Definition trimmed_keys (d : counter) : Prop :=
  Forall (fun item => strip item.1 = item.1) d.

(** * Properties *)

(** ** The string functions on small inputs

    Each agrees with what CPython returns for the same call. *)

Example strip_example : strip (str "  Jane Doe " ++ TAB) = str "Jane Doe".
Proof. reflexivity. Qed.

Example split_example :
  split (chr ",") (str " x, y,,") = [str " x"; str " y"; []; []].
Proof. reflexivity. Qed.

Example split_empty_example : split (chr ",") [] = [[]].
Proof. reflexivity. Qed.

Example split_once_example :
  split_once (chr ":") (str "A: x:y") = Some (str "A", str " x:y").
Proof. reflexivity. Qed.

Example splitlines_example :
  splitlines (str "a" ++ [13; 10]%N ++ str "b" ++ NEWLINE ++ NEWLINE ++ str "c")
  = [str "a"; str "b"; []; str "c"].
Proof. reflexivity. Qed.

Example splitlines_empty_example : splitlines [] = [] /\ splitlines NEWLINE = [[]].
Proof. split; reflexivity. Qed.

Example os_path_join_example :
  os_path_join (str "/work/repo") (str ".git") = str "/work/repo/.git"
  /\ os_path_join (str "/work/") (str "repo") = str "/work/repo"
  /\ os_path_join (str "/home/dev") (str "/work/repo") = str "/work/repo".
Proof. repeat split; reflexivity. Qed.

Example decimal_example : decimal 120 = str "120" /\ decimal 0 = str "0".
Proof. split; reflexivity. Qed.

Example parse_grouping_line_example :
  parse_grouping_line (str "  Team One : a@x.org , ,Bob B,  " ++ NEWLINE)
  = Some (str "Team One", [str "a@x.org"; str "Bob B"]).
Proof. reflexivity. Qed.

Example blame_lines_example :
  blame_lines [] (splitlines demo_blame) = [(str "Jane Doe", 1)].
Proof. reflexivity. Qed.

Example group_counts_example :
  group_counts (U:=unicode_fragment) {[ str "x" := str "B" ]}
               [(str "X", 2); (str "y", 3); (str " x ", 1)]
  = [(str "B", 3); (str "y", 3)].
Proof. vm_compute. reflexivity. Qed.

(** ** Strings *)

Lemma lstrip_trimmed_left (s : text) : trimmed_left (lstrip s).
Proof.
  induction s as [|c s IH]; simpl; [done|].
  destruct (isspace c) eqn:Hc; [exact IH | exact Hc].
Qed.

Lemma lstrip_fixed (s : text) : trimmed_left s -> lstrip s = s.
Proof. destruct s as [|c s]; simpl; [done|]. by intros ->. Qed.

Lemma lstrip_blank (s : text) :
  Forall (fun c => isspace c = true) s -> lstrip s = [].
Proof. induction 1 as [|c s Hc _ IH]; simpl; [done|]. by rewrite Hc. Qed.

Lemma lstrip_snoc (s : text) (c : N) :
  isspace c = false -> exists u, lstrip (s ++ [c]) = u ++ [c].
Proof.
  intros Hc. induction s as [|x s [u IH]]; simpl.
  - rewrite Hc. by exists [].
  - destruct (isspace x); [by exists u | by exists (x :: s)].
Qed.

Lemma rstrip_trimmed_left (s : text) : trimmed_left s -> trimmed_left (rstrip s).
Proof.
  destruct s as [|c s]; [done|]. simpl. intros Hc. unfold rstrip. simpl.
  destruct (lstrip_snoc (rev s) c Hc) as [u ->].
  rewrite rev_app_distr. exact Hc.
Qed.

Lemma strip_trimmed_left (s : text) : trimmed_left (strip s).
Proof. apply rstrip_trimmed_left, lstrip_trimmed_left. Qed.

Lemma strip_trimmed_right (s : text) : trimmed_left (rev (strip s)).
Proof. unfold strip, rstrip. rewrite rev_involutive. apply lstrip_trimmed_left. Qed.

Lemma strip_fixed (s : text) :
  trimmed_left s -> trimmed_left (rev s) -> strip s = s.
Proof.
  intros Hl Hr. unfold strip, rstrip.
  by rewrite (lstrip_fixed s Hl), (lstrip_fixed _ Hr), rev_involutive.
Qed.

Lemma strip_idemp (s : text) : strip (strip s) = strip s.
Proof. apply strip_fixed; [apply strip_trimmed_left | apply strip_trimmed_right]. Qed.

Lemma strip_blank (s : text) :
  Forall (fun c => isspace c = true) s -> strip s = [].
Proof. intros H. unfold strip. by rewrite (lstrip_blank s H). Qed.

Lemma startswith_app (p s : text) : startswith (p ++ s) p = true.
Proof. induction p as [|c p IH]; simpl; [done|]. rewrite N.eqb_refl. exact IH. Qed.

(** ** Counters *)

Module CounterFacts.
Import Counter.

Lemma get_add_eq (k : text) (n : Z) (d : counter) :
  get k (add k n d) = Some (count k d + n).
Proof.
  unfold count. induction d as [|[k' v] d IH]; simpl.
  - by rewrite decide_True.
  - destruct (decide (k' = k)) as [->|Hne]; simpl.
    + by rewrite decide_True.
    + by rewrite decide_False.
Qed.

Lemma get_add_ne (k k' : text) (n : Z) (d : counter) :
  k <> k' -> get k' (add k n d) = get k' d.
Proof.
  intros Hne. induction d as [|[k0 v] d IH]; simpl.
  - by rewrite decide_False.
  - destruct (decide (k0 = k)) as [->|]; simpl.
    + by rewrite !decide_False.
    + by rewrite IH.
Qed.

Lemma count_add (k k' : text) (n : Z) (d : counter) :
  count k' (add k n d) = count k' d + (if decide (k = k') then n else 0).
Proof.
  destruct (decide (k = k')) as [->|Hne].
  - unfold count at 1. by rewrite get_add_eq.
  - unfold count. rewrite get_add_ne by done. lia.
Qed.

Lemma total_nil : total [] = 0.
Proof. reflexivity. Qed.

Lemma total_cons (k : text) (v : Z) (d : counter) :
  total ((k, v) :: d) = v + total d.
Proof. reflexivity. Qed.

Lemma total_add (k : text) (n : Z) (d : counter) :
  total (add k n d) = total d + n.
Proof.
  induction d as [|[k' v] d IH]; cbn [add]; [rewrite total_cons, total_nil; lia|].
  destruct (decide (k' = k)); rewrite !total_cons; [|rewrite IH]; lia.
Qed.

Lemma keys_add (k k' : text) (n : Z) (d : counter) :
  k' ∈ keys (add k n d) <-> k' = k \/ k' ∈ keys d.
Proof.
  unfold keys. induction d as [|[k0 v] d IH]; cbn [add].
  - rewrite fmap_cons, elem_of_cons. cbn [fst]. reflexivity.
  - destruct (decide (k0 = k)) as [->|]; rewrite !fmap_cons, !elem_of_cons;
      cbn [fst]; [|rewrite IH]; tauto.
Qed.

Lemma keys_add_fresh (k : text) (n : Z) (d : counter) :
  k ∉ keys d -> add k n d = d ++ [(k, n)].
Proof.
  unfold keys. induction d as [|[k0 v] d IH]; simpl; [done|].
  intros [Hne Hk]%not_elem_of_cons.
  rewrite decide_False by done. f_equal. by apply IH.
Qed.

Lemma NoDup_keys_add (k : text) (n : Z) (d : counter) :
  NoDup (keys d) -> NoDup (keys (add k n d)).
Proof.
  unfold keys. induction d as [|[k0 v] d IH]; simpl.
  - intros _. apply NoDup_singleton.
  - rewrite NoDup_cons. intros [Hk0 Hd].
    destruct (decide (k0 = k)) as [->|Hne]; simpl.
    + by apply NoDup_cons.
    + apply NoDup_cons. split; [|by apply IH].
      intros Hin. apply (keys_add k k0 n d) in Hin as [?|?]; done.
Qed.

End CounterFacts.

(** ** The reporter's grouping loop *)

Section Grouping.
Context `{U : Unicode}.
Import Counter CounterFacts.

Lemma group_counts_foldl (gm : gmap text text) (ac : counter) :
  group_counts gm ac = foldl (group_step gm) [] ac.
Proof. reflexivity. Qed.

Lemma group_loop_total (gm : gmap text text) (ac grouped : counter) :
  total (foldl (group_step gm) grouped ac) = total grouped + total ac.
Proof.
  revert grouped. induction ac as [|[a c] ac IH]; intros grouped; cbn [foldl group_step].
  - rewrite total_nil. lia.
  - rewrite IH, total_add, total_cons. lia.
Qed.

Lemma group_loop_NoDup (gm : gmap text text) (ac grouped : counter) :
  NoDup (keys grouped) -> NoDup (keys (foldl (group_step gm) grouped ac)).
Proof.
  revert grouped. induction ac as [|[a c] ac IH]; intros grouped H; simpl; [done|].
  by apply IH, NoDup_keys_add.
Qed.

Lemma group_loop_keys (gm : gmap text text) (ac grouped : counter) (g : text) :
  g ∈ keys (foldl (group_step gm) grouped ac)
  <-> g ∈ keys grouped \/ exists a c, (a, c) ∈ ac /\ group_of gm a = g.
Proof.
  revert grouped. induction ac as [|[a c] ac IH]; intros grouped; simpl.
  - split; [by left|]. intros [H|(a & c & H & _)]; [done|]. by apply elem_of_nil in H.
  - rewrite IH, keys_add. split.
    + intros [[->|H]|(a' & c' & H & Hg)].
      * right. exists a, c. split; [apply elem_of_cons; by left | done].
      * by left.
      * right. exists a', c'. split; [apply elem_of_cons; by right | done].
    + intros [H|(a' & c' & H & Hg)]; [by left; right|].
      apply elem_of_cons in H as [[= -> ->]|H]; [by left; left|].
      right. by exists a', c'.
Qed.

Lemma group_loop_count (gm : gmap text text) (ac grouped : counter) (g : text) :
  count g (foldl (group_step gm) grouped ac)
  = count g grouped + total (filter (fun item => group_of gm item.1 = g) ac).
Proof.
  revert grouped. induction ac as [|[a c] ac IH]; intros grouped; cbn [foldl group_step].
  - rewrite filter_nil, total_nil. lia.
  - rewrite IH, count_add, filter_cons. cbn [fst].
    destruct (decide (group_of gm a = g)); rewrite ?total_cons; lia.
Qed.

(** C1.  Grouping merges keys and nothing else: the grouped counts add up
    to the author counts; the keys of the grouped counts are distinct and
    are exactly the names the authors resolve to; and the count of a group is
    the sum of the counts of the authors that resolve to it, where an author
    resolves to one name only: the group that the alias mapping gives for
    the normalized author if it has one, else the raw author string. *)
Theorem grouped_counts_partition_author_counts
    (group_mapping : gmap text text) (author_counts : counter) :
  let resolved author :=
    match group_mapping !! normalize_name author with
    | Some group => group
    | None => author
    end in
  let grouped_counts := group_counts group_mapping author_counts in
  total grouped_counts = total author_counts
  /\ NoDup (keys grouped_counts)
  /\ (forall group, group ∈ keys grouped_counts
        <-> exists author n, (author, n) ∈ author_counts /\ resolved author = group)
  /\ (forall group, count group grouped_counts
        = total (filter (fun item => resolved item.1 = group) author_counts)).
Proof.
  intros resolved grouped_counts. subst grouped_counts.
  assert (Hres : forall a, resolved a = group_of group_mapping a).
  { intros a. unfold resolved, group_of. by destruct (_ !! _). }
  rewrite group_counts_foldl. split; [|split; [|split]].
  - rewrite group_loop_total, total_nil. lia.
  - apply group_loop_NoDup. constructor.
  - intros group. rewrite group_loop_keys. split.
    + intros [H|(a & c & H & Hg)]; [by apply elem_of_nil in H|].
      exists a, c. by rewrite Hres.
    + intros (a & c & H & Hg). right. exists a, c. by rewrite <- Hres.
  - intros group. rewrite group_loop_count. unfold count at 1. simpl.
    reflexivity.
Qed.

End Grouping.

(** ** Parsing the porcelain output of one file *)

Section Blame.
Import Counter CounterFacts.

Lemma blame_line_content (d : counter) (line : text) :
  startswith line TAB = true -> blame_line d line = d.
Proof. unfold blame_line. by intros ->. Qed.

Lemma blame_line_other_header (d : counter) (line : text) :
  startswith line (str "author ") = false -> blame_line d line = d.
Proof. unfold blame_line. intros ->. by destruct (startswith line TAB). Qed.

Lemma blame_line_author (d : counter) (line : text) :
  startswith line (str "author ") = true ->
  blame_line d line = add (strip (drop 7 line)) 1 d.
Proof.
  unfold blame_line. intros Ha. rewrite Ha.
  destruct line as [|c line]; [done|].
  change (startswith (c :: line) (str "author "))
    with ((97 =? c)%N && startswith line (str "uthor ")) in Ha.
  apply andb_prop in Ha as [Hc _]. apply N.eqb_eq in Hc as <-.
  reflexivity.
Qed.

(** C3.  A line that begins with a tab, and a line that does not begin with
    [author ] (so [author-mail ...], [author-time ...], a commit line,
    [summary ...]), leave the counts as they are.  A line that begins with
    [author ] adds exactly 1 to the count of one author, the trimmed rest of
    the line, and leaves every other entry as it is.  The block
    ["abcd123 1 1 1"; "author Jane Doe"; "\tprintln()"; "author-mail <jane@x.com>"]
    adds exactly 1 to ["Jane Doe"] and nothing else. *)
Theorem blame_line_counts_author_headers (author_counts : counter) :
  (forall line, startswith line TAB = true ->
     blame_line author_counts line = author_counts)
  /\ (forall line, startswith line (str "author ") = false ->
        blame_line author_counts line = author_counts)
  /\ (forall line, startswith line (str "author ") = true ->
        let author := strip (drop 7 line) in
        let author_counts' := blame_line author_counts line in
        count author author_counts' = count author author_counts + 1
        /\ forall other, other <> author ->
             get other author_counts' = get other author_counts)
  /\ (let author_counts' := blame_lines author_counts jane_block in
      blame_line author_counts (str "author-mail <jane@x.com>") = author_counts
      /\ count (str "Jane Doe") author_counts'
         = count (str "Jane Doe") author_counts + 1
      /\ forall other, other <> str "Jane Doe" ->
           get other author_counts' = get other author_counts).
Proof.
  split; [|split; [|split]].
  - intros line. apply blame_line_content.
  - intros line. apply blame_line_other_header.
  - intros line Ha author author_counts'. subst author_counts'.
    rewrite (blame_line_author _ _ Ha). fold author. split.
    + rewrite count_add, decide_True by done. lia.
    + intros other Hne. by apply get_add_ne.
  - assert (E : blame_lines author_counts jane_block
                = add (str "Jane Doe") 1 author_counts) by reflexivity.
    cbv zeta. rewrite E. split; [reflexivity|split].
    + rewrite count_add, decide_True by done. lia.
    + intros other Hne. by apply get_add_ne.
Qed.

End Blame.

Section BlankAuthor.
Context `{U : Unicode}.
Import Counter CounterFacts.

(** C10.  A header line made of [author ] and white space only (or nothing)
    is counted under the empty author name: the count of [""] goes up by one,
    so [""] is a key of the author counts; and unless an alias normalizes to
    what [""] normalizes to, [""] is a key of the grouped counts, whose items
    are the rows of the table the reporter sorts, prints and plots. *)
Theorem blank_author_is_counted
    (author_counts : counter) (blanks : text) (group_mapping : gmap text text) :
  Forall (fun c => isspace c = true) blanks ->
  let author_counts' := blame_line author_counts (str "author " ++ blanks) in
  count [] author_counts' = count [] author_counts + 1
  /\ [] ∈ keys author_counts'
  /\ (group_mapping !! normalize_name [] = None ->
      [] ∈ keys (group_counts group_mapping author_counts')).
Proof.
  intros Hb author_counts'.
  assert (E : author_counts' = add [] 1 author_counts).
  { subst author_counts'.
    rewrite (blame_line_author _ _ (startswith_app (str "author ") blanks)).
    change (drop 7 (str "author " ++ blanks)) with blanks.
    by rewrite (strip_blank _ Hb). }
  rewrite E. split; [|split].
  - rewrite count_add, decide_True by done. lia.
  - apply keys_add. by left.
  - intros Hgm. rewrite group_counts_foldl. apply group_loop_keys. right.
    assert (Hk : [] ∈ keys (add [] 1 author_counts)) by (apply keys_add; by left).
    apply list_elem_of_fmap in Hk as ([a c] & Ha & Hin). simpl in Ha. subst a.
    exists [], c. split; [done|]. unfold group_of. by rewrite Hgm.
Qed.

End BlankAuthor.

(** ** The alias loader *)

Lemma lstrip_suffix (s : text) : exists blanks, s = blanks ++ lstrip s.
Proof.
  induction s as [|c s [b IH]]; simpl; [by exists []|].
  destruct (isspace c); [|by exists []].
  exists (c :: b). simpl. by rewrite <- IH.
Qed.

Lemma elem_of_lstrip (c : N) (s : text) : c ∈ lstrip s -> c ∈ s.
Proof.
  intros H. destruct (lstrip_suffix s) as [b E]. rewrite E.
  apply elem_of_app. by right.
Qed.

Lemma elem_of_rev_iff (c : N) (s : text) : c ∈ rev s <-> c ∈ s.
Proof. rewrite !list_elem_of_In. symmetry. apply in_rev. Qed.

Lemma elem_of_strip (c : N) (s : text) : c ∈ strip s -> c ∈ s.
Proof.
  unfold strip, rstrip. rewrite elem_of_rev_iff. intros H.
  apply elem_of_lstrip in H. apply (proj1 (elem_of_rev_iff _ _)) in H.
  by apply elem_of_lstrip.
Qed.

Lemma contains_elem_of (c : N) (s : text) : contains c s = true <-> c ∈ s.
Proof.
  unfold contains. rewrite existsb_exists. split.
  - intros (x & Hin & Hx). apply N.eqb_eq in Hx as ->. by apply list_elem_of_In.
  - intros H. exists c. split; [by apply list_elem_of_In | apply N.eqb_refl].
Qed.

Lemma contains_strip (c : N) (s : text) :
  contains c s = false -> contains c (strip s) = false.
Proof.
  intros H. destruct (contains c (strip s)) eqn:E; [|done].
  apply contains_elem_of, elem_of_strip, contains_elem_of in E. congruence.
Qed.

Lemma strip_keeps_first (c : N) (s : text) :
  isspace c = false -> exists u, strip (c :: s) = c :: u.
Proof.
  intros Hc. unfold strip. simpl. rewrite Hc. unfold rstrip. simpl.
  destruct (lstrip_snoc (rev s) c Hc) as [u ->].
  exists (rev u). by rewrite rev_app_distr.
Qed.

Lemma elem_of_lstrip_keeps (c : N) (s : text) :
  isspace c = false -> c ∈ s -> c ∈ lstrip s.
Proof.
  intros Hc. induction s as [|x s IH]; simpl; [done|].
  intros [->|H]%elem_of_cons.
  - rewrite Hc. apply elem_of_cons. by left.
  - destruct (isspace x); [by apply IH | apply elem_of_cons; by right].
Qed.

(** Trimming removes white space only. *)
Lemma contains_strip_keeps (c : N) (s : text) :
  isspace c = false -> contains c s = true -> contains c (strip s) = true.
Proof.
  intros Hc H. apply contains_elem_of. apply contains_elem_of in H.
  unfold strip, rstrip. apply elem_of_rev_iff, elem_of_lstrip_keeps; [done|].
  apply elem_of_rev_iff. by apply elem_of_lstrip_keeps.
Qed.

(** [s.split(c, 1)] cuts a string that holds [c] at the first [c]. *)
Lemma split_once_contains (c : N) (s : text) :
  contains c s = true ->
  exists a b,
    split_once c s = Some (a, b) /\ s = a ++ c :: b /\ contains c a = false.
Proof.
  induction s as [|x s IH]; simpl; [done|].
  rewrite (N.eqb_sym c x). destruct (N.eqb_spec x c) as [->|Hne]; simpl.
  - intros _. by exists [], s.
  - intros H. destruct (IH H) as (a & b & -> & -> & Ha). exists (x :: a), b.
    split; [done|]. split; [done|]. simpl. rewrite Ha, orb_false_r.
    by apply N.eqb_neq.
Qed.

Lemma split_never_nil (c : N) (s : text) : split c s <> [].
Proof.
  destruct s as [|x s]; simpl; [done|].
  destruct (x =? c)%N; [done|]. by destruct (split c s).
Qed.

(** [s.split(c)] cuts at every [c] and loses nothing. *)
Lemma split_join (c : N) (s : text) : join c (split c s) = s.
Proof.
  induction s as [|x s IH]; cbn [split]; [done|].
  pose proof (split_never_nil c s) as Hnil.
  destruct (N.eqb_spec x c) as [->|Hne].
  - destruct (split c s) as [|h t]; [done|].
    change (join c ([] :: h :: t)) with ([] ++ c :: join c (h :: t)).
    by rewrite IH.
  - destruct (split c s) as [|h t]; [done|].
    rewrite <- IH. by destruct t.
Qed.

Lemma split_pieces (c : N) (s : text) :
  Forall (fun piece => contains c piece = false) (split c s).
Proof.
  induction s as [|x s IH]; cbn [split]; [by repeat constructor|].
  destruct (N.eqb_spec x c) as [->|Hne]; [by constructor|].
  pose proof (split_never_nil c s) as Hnil.
  destruct (split c s) as [|h t]; [done|].
  apply Forall_cons in IH as [Hh Ht]. constructor; [|done].
  simpl. rewrite Hh, orb_false_r. apply N.eqb_neq. congruence.
Qed.

Section Loader.
Context `{U : Unicode}.

Lemma grouping_line_skipped (mapping : gmap text text) (line : text) :
  parse_grouping_line line = None -> grouping_line mapping line = mapping.
Proof. unfold grouping_line. by intros ->. Qed.

Lemma parse_blank (line : text) :
  strip line = [] -> parse_grouping_line line = None.
Proof. unfold parse_grouping_line. by intros ->. Qed.

Lemma parse_comment (line : text) :
  startswith (strip line) (str "#") = true -> parse_grouping_line line = None.
Proof.
  unfold parse_grouping_line. intros ->. by rewrite orb_true_r.
Qed.

Lemma parse_no_colon (line : text) :
  contains (chr ":") line = false -> parse_grouping_line line = None.
Proof.
  unfold parse_grouping_line. intros H. rewrite (contains_strip _ _ H).
  by destruct (_ || _).
Qed.

Lemma parse_valid (line group_name : text) (aliases : list text) :
  parse_grouping_line line = Some (group_name, aliases) ->
  exists name aliases_str,
    split_once (chr ":") (strip line) = Some (name, aliases_str)
    /\ group_name = strip name
    /\ aliases = strip <$> filter (fun alias => strip alias <> [])
                                  (split (chr ",") aliases_str).
Proof.
  unfold parse_grouping_line.
  destruct (_ || _); [done|]. destruct (negb _); [done|].
  destruct (split_once (chr ":") (strip line)) as [[name aliases_str]|]; [|done].
  intros [= <- <-]. by exists name, aliases_str.
Qed.

Lemma aliases_of_pieces (aliases_str alias : text) :
  alias ∈ strip <$> filter (fun piece => strip piece <> [])
                           (split (chr ",") aliases_str)
  <-> alias <> []
      /\ exists piece, piece ∈ split (chr ",") aliases_str /\ strip piece = alias.
Proof.
  rewrite list_elem_of_fmap. split.
  - intros (piece & -> & Hp). apply list_elem_of_filter in Hp as [Hne Hp].
    split; [done|]. by exists piece.
  - intros (Hne & piece & Hp & <-). exists piece. split; [done|].
    by apply list_elem_of_filter.
Qed.

Lemma register_aliases_lookup (mapping : gmap text text) (group_name : text)
    (aliases : list text) (key : text) :
  foldl (fun mapping alias => <[normalize_name alias := group_name]> mapping)
        mapping aliases !! key
  = if decide (key ∈ normalize_name <$> aliases) then Some group_name
    else mapping !! key.
Proof.
  revert mapping. induction aliases as [|a aliases IH]; intros mapping; cbn [foldl].
  - by rewrite decide_False by apply not_elem_of_nil.
  - rewrite IH, fmap_cons. destruct (decide (key ∈ normalize_name <$> aliases)) as [Hin|Hin].
    + rewrite decide_True; [done|]. apply elem_of_cons. by right.
    + destruct (decide (key = normalize_name a)) as [->|Hne].
      * rewrite lookup_insert_eq. rewrite decide_True; [done|].
        apply elem_of_cons. by left.
      * rewrite lookup_insert_ne by done. rewrite decide_False; [done|].
        intros [?|?]%elem_of_cons; done.
Qed.

Lemma grouping_lines_untouched (mapping : gmap text text) (lines : list text)
    (key : text) :
  (forall line group_name aliases,
     line ∈ lines -> parse_grouping_line line = Some (group_name, aliases) ->
     key ∉ normalize_name <$> aliases) ->
  foldl grouping_line mapping lines !! key = mapping !! key.
Proof.
  revert mapping. induction lines as [|l lines IH]; intros mapping H; simpl; [done|].
  rewrite IH.
  - unfold grouping_line.
    destruct (parse_grouping_line l) as [[g als]|] eqn:E; [|done].
    rewrite register_aliases_lookup, decide_False; [done|].
    apply (H l g als); [apply elem_of_cons; by left | done].
  - intros line g als Hin. apply H. apply elem_of_cons. by right.
Qed.

(** C9.  A blank line, a line whose first non-blank character is [#] (and so
    a line that starts with [#]) and a line without [:] (such as
    [NoColonHere]) leave the mapping as it is: the mapping after the line is
    the mapping before it; and these are the only lines the loop skips.
    Every other line is a valid line: trimmed, it is [name:aliases_str], cut
    at its first colon; the aliases it registers are the pieces of
    [aliases_str] between commas, each trimmed, without the pieces that are
    empty once trimmed; after the line the normalized form of each of them
    maps to the trimmed name and every other key maps to what it mapped to
    before.  So the line [ Team : a , ,b] registers [a] and [b] under
    [Team]. *)
Theorem skipped_lines_leave_the_mapping (mapping : gmap text text) :
  (forall line, strip line = [] -> grouping_line mapping line = mapping)
  /\ (forall line, startswith (strip line) (str "#") = true ->
        grouping_line mapping line = mapping)
  /\ (forall line, startswith line (str "#") = true ->
        grouping_line mapping line = mapping)
  /\ (forall line, contains (chr ":") line = false ->
        grouping_line mapping line = mapping)
  /\ grouping_line mapping (str "NoColonHere") = mapping
  /\ (forall line,
        parse_grouping_line line = None
        <-> strip line = [] \/ startswith (strip line) (str "#") = true
            \/ contains (chr ":") line = false)
  /\ (forall line,
        strip line <> [] ->
        startswith (strip line) (str "#") = false ->
        contains (chr ":") line = true ->
        exists name aliases_str aliases,
          strip line = name ++ chr ":" :: aliases_str
          /\ contains (chr ":") name = false
          /\ join (chr ",") (split (chr ",") aliases_str) = aliases_str
          /\ Forall (fun piece => contains (chr ",") piece = false)
                    (split (chr ",") aliases_str)
          /\ parse_grouping_line line = Some (strip name, aliases)
          /\ (forall alias, alias ∈ aliases
                <-> alias <> []
                    /\ exists piece, piece ∈ split (chr ",") aliases_str
                                     /\ strip piece = alias)
          /\ (forall alias, alias ∈ aliases -> strip alias = alias)
          /\ (forall key,
                grouping_line mapping line !! key
                = if decide (key ∈ normalize_name <$> aliases)
                  then Some (strip name) else mapping !! key))
  /\ parse_grouping_line (str " Team : a , ,b" ++ NEWLINE)
     = Some (str "Team", [str "a"; str "b"]).
Proof.
  assert (Hvalid : forall line,
    strip line <> [] ->
    startswith (strip line) (str "#") = false ->
    contains (chr ":") line = true ->
    exists name aliases_str,
      strip line = name ++ chr ":" :: aliases_str
      /\ contains (chr ":") name = false
      /\ parse_grouping_line line
         = Some (strip name,
                 strip <$> filter (fun piece => strip piece <> [])
                                  (split (chr ",") aliases_str))).
  { intros line Hne Hhash Hcolon.
    pose proof (contains_strip_keeps (chr ":") line eq_refl Hcolon) as Hc.
    destruct (split_once_contains _ _ Hc) as (name & aliases_str & Hs & E & Hn).
    exists name, aliases_str. split; [done|]. split; [done|].
    unfold parse_grouping_line.
    rewrite bool_decide_eq_false_2 by done.
    rewrite Hhash, Hc. cbn [orb negb]. by rewrite Hs. }
  split; [|split; [|split; [|split; [|split; [|split; [|split]]]]]].
  - intros line H. apply grouping_line_skipped, parse_blank, H.
  - intros line H. apply grouping_line_skipped, parse_comment, H.
  - intros line H. apply grouping_line_skipped, parse_comment.
    destruct line as [|c line]; [done|].
    change (startswith (c :: line) (str "#")) with ((35 =? c)%N && true) in H.
    apply andb_prop in H as [Hc _]. apply N.eqb_eq in Hc as <-.
    by destruct (strip_keeps_first 35 line eq_refl) as [u ->].
  - intros line H. apply grouping_line_skipped, parse_no_colon, H.
  - reflexivity.
  - intros line. split.
    + intros Hnone.
      destruct (decide (strip line = [])) as [|Hne]; [by left|].
      destruct (startswith (strip line) (str "#")) eqn:Hhash; [right; by left|].
      destruct (contains (chr ":") line) eqn:Hcolon; [|right; by right].
      destruct (Hvalid line Hne Hhash Hcolon) as (? & ? & _ & _ & E).
      congruence.
    + intros [H|[H|H]];
        [by apply parse_blank | by apply parse_comment | by apply parse_no_colon].
  - intros line Hne Hhash Hcolon.
    destruct (Hvalid line Hne Hhash Hcolon) as (name & aliases_str & E & Hn & Hp).
    exists name, aliases_str. eexists.
    split; [done|]. split; [done|]. split; [apply split_join|].
    split; [apply split_pieces|]. split; [exact Hp|].
    split; [apply aliases_of_pieces|]. split.
    + intros alias (piece & -> & _)%list_elem_of_fmap. apply strip_idemp.
    + intros key. unfold grouping_line. rewrite Hp.
      apply register_aliases_lookup.
  - reflexivity.
Qed.

End Loader.

(** ** The script's computations

    In this section and in the further properties every unguarded call
    returns ([no_faults]). *)

Section Effects.
Context `{U : Unicode} `{OS : System}.

Lemma bind_run {A B} (m : M A) (f : A -> M B) (s : process) :
  (m ≫= f) s
  = match m s with
    | (Return a, s') => f a s'
    | (Raise e, s') => (Raise e, s')
    end.
Proof. reflexivity. Qed.

Lemma ret_run {A} (a : A) (s : process) : @mret M _ A a s = (Return a, s).
Proof. reflexivity. Qed.

Lemma printed_nil (s : process) : printed [] s = s.
Proof. destruct s. unfold printed. simpl. by rewrite app_nil_r. Qed.

Lemma printed_app (a b : list text) (s : process) :
  printed (a ++ b) s = printed b (printed a s).
Proof. unfold printed. simpl. by rewrite app_assoc. Qed.

Lemma print_run (line : text) (s : process) :
  print line s = (Return tt, printed [line] s).
Proof. reflexivity. Qed.

Lemma os_getcwd_run (s : process) : os_getcwd s = (Return (cwd s), s).
Proof. reflexivity. Qed.

Lemma os_chdir_run (path : text) (s : process) :
  os_chdir path s = (Return tt, entered path s).
Proof. reflexivity. Qed.

(** *** The loader *)

Lemma load_missing (path : text) (s : process) :
  isfile (cwd s) path = false ->
  load_grouping_mapping path s
  = (Return ∅, printed [str "Warning: Grouping file not found: " ++ path] s).
Proof.
  intros H. unfold load_grouping_mapping. rewrite bind_run.
  unfold os_path_isfile. by rewrite H.
Qed.

Lemma load_failed (path : text) (s : process) (e : exn) :
  isfile (cwd s) path = true ->
  read_lines (cwd s) path = Raise e ->
  load_grouping_mapping path s
  = (Return ∅, printed [str "Failed to open grouping file " ++ path
                        ++ str ": " ++ message e] s).
Proof.
  intros H He. unfold load_grouping_mapping. rewrite bind_run.
  unfold os_path_isfile. rewrite H. simpl.
  unfold try_except. rewrite bind_run. unfold open_lines. by rewrite He.
Qed.

Lemma load_ok (path : text) (s : process) (lines : list text) :
  isfile (cwd s) path = true ->
  read_lines (cwd s) path = Return lines ->
  load_grouping_mapping path s = (Return (foldl grouping_line ∅ lines), s).
Proof.
  intros H He. unfold load_grouping_mapping. rewrite bind_run.
  unfold os_path_isfile. rewrite H. simpl.
  unfold try_except. rewrite bind_run. unfold open_lines. by rewrite He.
Qed.

(** While its [print] returns, the loader returns, and only prints. *)
Lemma load_returns (path : text) (s : process) :
  exists mapping lines,
    load_grouping_mapping path s = (Return mapping, printed lines s).
Proof.
  destruct (isfile (cwd s) path) eqn:H.
  - destruct (read_lines (cwd s) path) as [lines|e] eqn:He.
    + exists (foldl grouping_line ∅ lines), [].
      by rewrite printed_nil, (load_ok _ _ _ H He).
    + eexists _, _. by apply load_failed.
  - eexists _, _. by apply load_missing.
Qed.

(** C6.  In the mapping the loader returns a normalized alias has one group
    name, that of the last line that lists it: if a line of the grouping file
    lists an alias under a group and no later line lists an alias with the
    same normalized form, looking up the normalized alias gives that group,
    whatever earlier lines say; no error is raised.  For the lines [A: x, y]
    and [B: x] (each with its line feed, as the iteration over the file
    yields them), normalized [x] resolves to [B]. *)
Theorem later_grouping_line_wins (path : text) (s : process) :
  isfile (cwd s) path = true ->
  (forall before line after group_name aliases alias,
     read_lines (cwd s) path = Return (before ++ line :: after) ->
     parse_grouping_line line = Some (group_name, aliases) ->
     alias ∈ aliases ->
     (forall line' group' aliases',
        line' ∈ after ->
        parse_grouping_line line' = Some (group', aliases') ->
        normalize_name alias ∉ normalize_name <$> aliases') ->
     exists mapping,
       load_grouping_mapping path s = (Return mapping, s)
       /\ mapping !! normalize_name alias = Some group_name)
  /\ (read_lines (cwd s) path
      = Return [str "A: x, y" ++ NEWLINE; str "B: x" ++ NEWLINE] ->
      exists mapping,
        load_grouping_mapping path s = (Return mapping, s)
        /\ mapping !! normalize_name (str "x") = Some (str "B")).
Proof.
  intros Hfile.
  assert (Hgen : forall before line after group_name aliases alias,
     read_lines (cwd s) path = Return (before ++ line :: after) ->
     parse_grouping_line line = Some (group_name, aliases) ->
     alias ∈ aliases ->
     (forall line' group' aliases',
        line' ∈ after ->
        parse_grouping_line line' = Some (group', aliases') ->
        normalize_name alias ∉ normalize_name <$> aliases') ->
     exists mapping,
       load_grouping_mapping path s = (Return mapping, s)
       /\ mapping !! normalize_name alias = Some group_name).
  { intros before line after group_name aliases alias Hread Hline Hin Hafter.
    eexists. split; [by apply load_ok|].
    rewrite foldl_app. cbn [foldl].
    rewrite grouping_lines_untouched by done.
    unfold grouping_line at 1. rewrite Hline.
    rewrite register_aliases_lookup, decide_True; [done|].
    apply list_elem_of_fmap. by exists alias. }
  split; [exact Hgen|].
  intros Hread.
  apply (Hgen [str "A: x, y" ++ NEWLINE] (str "B: x" ++ NEWLINE) []
               (str "B") [str "x"] (str "x")).
  - exact Hread.
  - reflexivity.
  - apply elem_of_cons. by left.
  - intros line' g' als' Hin. by apply elem_of_nil in Hin.
Qed.

(** With an empty mapping the grouping loop copies the author counts. *)
Lemma group_loop_empty (author_counts grouped : counter) :
  NoDup (Counter.keys (grouped ++ author_counts)) ->
  foldl (group_step ∅) grouped author_counts = grouped ++ author_counts.
Proof.
  revert grouped.
  induction author_counts as [|[a c] ac IH]; intros grouped Hnd; cbn [foldl].
  - by rewrite app_nil_r.
  - cbn [group_step]. unfold group_of. rewrite lookup_empty. cbn [default].
    rewrite CounterFacts.keys_add_fresh.
    + rewrite IH; rewrite <- app_assoc; done.
    + unfold Counter.keys in *. rewrite fmap_app, fmap_cons in Hnd.
      apply NoDup_app in Hnd as (_ & Hnd & _). intros Hin.
      apply (Hnd a Hin). apply elem_of_cons. by left.
Qed.

(** C7.  When the grouping file does not exist, or reading it raises after
    the existence check, the loader returns the empty mapping, raises
    nothing and changes nothing but the console, where it prints one line
    (the warning, or the failure with the exception's message).  With the
    empty mapping every author resolves to the raw author string, and the
    grouped counts are the author counts, entry by entry. *)
Theorem missing_grouping_file_is_not_fatal (path : text) (s : process) :
  isfile (cwd s) path = false \/ (exists e, read_lines (cwd s) path = Raise e) ->
  (exists line, load_grouping_mapping path s = (Return ∅, printed [line] s))
  /\ (forall author, group_of ∅ author = author)
  /\ (forall author_counts : counter,
        NoDup (Counter.keys author_counts) ->
        group_counts ∅ author_counts = author_counts).
Proof.
  intros H. split; [|split].
  - destruct (isfile (cwd s) path) eqn:Hfile.
    + destruct H as [H|[e He]]; [done|]. eexists. by apply load_failed.
    + eexists. by apply load_missing.
  - intros author. unfold group_of. by rewrite lookup_empty.
  - intros ac Hnd. rewrite group_counts_foldl. by apply group_loop_empty.
Qed.

(** *** The loop over the tracked files *)

Lemma blame_file_run (author_counts : counter) (file_path : text) (s : process) :
  blame_file author_counts file_path s
  = (Return (blame_counts author_counts (run (cwd s) (blame_argv file_path))), s).
Proof.
  unfold blame_file, try_except, blame_counts. rewrite bind_run.
  unfold subprocess_run. destruct (run (cwd s) (blame_argv file_path)) as [r|e].
  - by destruct (_ || _).
  - reflexivity.
Qed.

Lemma blame_files_run (total_files index : nat) (author_counts : counter)
    (files : list text) (s : process) :
  blame_files total_files index author_counts files s
  = (Return (aggregate (cwd s) author_counts files),
     printed (progress total_files index files) s).
Proof.
  revert index author_counts s.
  induction files as [|f files IH]; intros index ac s; cbn [blame_files progress].
  - by rewrite printed_nil.
  - rewrite bind_run, printed_app.
    destruct ((index mod 100 =? 0)%nat || (index =? total_files)%nat).
    + rewrite print_run, bind_run, blame_file_run, IH. reflexivity.
    + rewrite ret_run, bind_run, blame_file_run, IH. by rewrite printed_nil.
Qed.

Lemma blame_counts_failed (dir file_path : text) (author_counts : counter) :
  blame_fails dir file_path ->
  blame_counts author_counts (run dir (blame_argv file_path)) = author_counts.
Proof.
  unfold blame_fails, blame_counts.
  destruct (run dir (blame_argv file_path)) as [r|e]; [|done].
  intros [Hrc|Hout].
  - by destruct (Z.eqb_spec (returncode r) 0).
  - rewrite Hout. rewrite bool_decide_eq_true_2 by done. by rewrite orb_true_r.
Qed.

Lemma aggregate_skips (dir file_path : text) (author_counts : counter)
    (before after : list text) :
  blame_fails dir file_path ->
  aggregate dir author_counts (before ++ file_path :: after)
  = aggregate dir author_counts (before ++ after).
Proof.
  intros H. unfold aggregate. rewrite !foldl_app. cbn [foldl].
  by rewrite (blame_counts_failed _ _ _ H).
Qed.

(** C8.  When [git blame] of a tracked file exits non-zero, prints nothing
    but white space, or raises, the loop body returns the counts it was
    given and raises nothing; the loop over a listing that holds the file
    returns, and returns the counts that the loop over the listing without
    the file returns, whatever was counted before the file and whatever
    files follow it. *)
Theorem failed_blame_skips_the_file (file_path : text) (s : process) :
  blame_fails (cwd s) file_path ->
  (forall author_counts,
     blame_file author_counts file_path s = (Return author_counts, s))
  /\ (forall total_files index author_counts before after,
        exists author_counts',
          (blame_files total_files index author_counts
                       (before ++ file_path :: after) s).1
          = Return author_counts'
          /\ forall total_files' index',
               (blame_files total_files' index' author_counts
                            (before ++ after) s).1
               = Return author_counts').
Proof.
  intros H. split.
  - intros ac. by rewrite blame_file_run, (blame_counts_failed _ _ _ H).
  - intros total_files index ac before after.
    exists (aggregate (cwd s) ac (before ++ after)). split.
    + by rewrite blame_files_run, (aggregate_skips _ _ _ _ _ H).
    + intros total_files' index'. by rewrite blame_files_run.
Qed.

(** *** [main] *)

Lemma report_run (grouped_counts : counter) (s : process) :
  exists lines,
    report grouped_counts s
    = (Return tt,
       {| cwd := cwd s; console := console s ++ lines;
          shown := shown s ++ [figure_of (sort_values grouped_counts)] |}).
Proof.
  eexists [_; _]. unfold report. rewrite bind_run.
  change (pd_frame grouped_counts s)
    with (Return (sort_values grouped_counts) : result rows, s).
  cbv beta iota.
  rewrite bind_run, print_run, bind_run, print_run.
  unfold plt_show, printed, figure_of. simpl. by rewrite <- app_assoc.
Qed.

Lemma analyse_raises (group_mapping : gmap text text) (s : process) (e : exn) :
  run (cwd s) [str "git"; str "ls-files"] = Raise e ->
  analyse group_mapping s = (Raise e, s).
Proof.
  intros H. unfold analyse. rewrite bind_run. unfold subprocess_run. by rewrite H.
Qed.

Lemma analyse_nonzero (group_mapping : gmap text text) (s : process)
    (result : completed) :
  run (cwd s) [str "git"; str "ls-files"] = Return result ->
  returncode result <> 0 ->
  analyse group_mapping s
  = (Raise (RuntimeError (str "Failed to get list of files: " ++ stderr result)), s).
Proof.
  intros H Hrc. unfold analyse. rewrite bind_run. unfold subprocess_run.
  rewrite H. by destruct (Z.eqb_spec (returncode result) 0).
Qed.

Lemma analyse_listed (group_mapping : gmap text text) (s : process)
    (result : completed) :
  run (cwd s) [str "git"; str "ls-files"] = Return result ->
  returncode result = 0 ->
  let author_counts := aggregate (cwd s) [] (splitlines (stdout result)) in
  exists lines,
    analyse group_mapping s
    = if bool_decide (author_counts = []) then
        (Return tt,
         printed (lines ++ [str "No data available for statistics."]) s)
      else report (group_counts group_mapping author_counts) (printed lines s).
Proof.
  intros H Hrc author_counts. eexists (_ :: _ ++ [_]).
  unfold analyse. rewrite bind_run. unfold subprocess_run. rewrite H, Hrc.
  cbn [Z.eqb negb]. rewrite bind_run, print_run, bind_run, blame_files_run.
  rewrite bind_run, print_run. change (cwd (printed _ s)) with (cwd s).
  fold author_counts. rewrite <- !printed_app.
  destruct (bool_decide (author_counts = [])); [|reflexivity].
  rewrite print_run, <- printed_app. simpl. by rewrite <- !app_assoc.
Qed.

Lemma choose_grouping_file_run (grouping_file : option text) (s : process) :
  exists path, choose_grouping_file grouping_file s = (Return path, s).
Proof.
  unfold choose_grouping_file.
  destruct grouping_file as [path|]; [destruct (bool_decide _)|]; eauto.
Qed.

Lemma main_invalid_directory (repo_path : text) (grouping_file : option text)
    (s : process) :
  isdir (cwd s) repo_path = false ->
  main repo_path grouping_file s
  = (Raise (ValueError (str "Path " ++ repo_path
                        ++ str " is not a valid directory")), s).
Proof.
  intros H. unfold main. rewrite bind_run. unfold os_path_isdir. by rewrite H.
Qed.

Lemma main_not_a_repository (repo_path : text) (grouping_file : option text)
    (s : process) :
  isdir (cwd s) repo_path = true ->
  isdir (cwd s) (os_path_join repo_path (str ".git")) = false ->
  main repo_path grouping_file s
  = (Raise (ValueError (str "Path " ++ repo_path
                        ++ str " is not a Git repository")), s).
Proof.
  intros Hd Hg. unfold main. rewrite bind_run. unfold os_path_isdir at 1.
  rewrite Hd. cbn [negb]. rewrite bind_run. unfold os_path_isdir. by rewrite Hg.
Qed.

(** Past the two checks, [main] is the [try ... finally] around the
    analysis, started in the repository root. *)
Lemma main_valid (repo_path : text) (grouping_file : option text) (s : process) :
  isdir (cwd s) repo_path = true ->
  isdir (cwd s) (os_path_join repo_path (str ".git")) = true ->
  exists group_mapping lines,
    main repo_path grouping_file s
    = try_finally (analyse group_mapping) (os_chdir (cwd s))
                  (printed lines (entered repo_path s)).
Proof.
  intros Hd Hg. unfold main. rewrite bind_run. unfold os_path_isdir at 1.
  rewrite Hd. cbn [negb]. rewrite bind_run. unfold os_path_isdir.
  rewrite Hg. cbn [negb]. rewrite bind_run, os_getcwd_run.
  rewrite bind_run, os_chdir_run.
  destruct (choose_grouping_file_run grouping_file (entered repo_path s))
    as [path Hpath].
  rewrite bind_run, Hpath, bind_run, print_run.
  destruct (load_returns path
              (printed [str "Looking for grouping file at: " ++ path]
                       (entered repo_path s)))
    as (group_mapping & lines & Hload).
  rewrite bind_run, Hload, bind_run, print_run, <- !printed_app.
  by eexists group_mapping, _.
Qed.

Lemma try_finally_chdir {A} (body : M A) (dir : text) (s : process) :
  try_finally body (os_chdir dir) s
  = ((body s).1, entered dir (body s).2).
Proof. unfold try_finally. by destruct (body s). Qed.

Lemma os_path_join_absolute (a b : text) :
  startswith b (str "/") = true -> os_path_join a b = b.
Proof. unfold os_path_join. by intros ->. Qed.

(** Every run of [main] is one of the six of [main_run]. *)
Lemma main_runs (repo_path : text) (grouping_file : option text) (s : process) :
  main_run repo_path s (main repo_path grouping_file s).1
           (main repo_path grouping_file s).2.
Proof.
  destruct (isdir (cwd s) repo_path) eqn:Hd.
  2:{ rewrite main_invalid_directory by done. by constructor. }
  destruct (isdir (cwd s) (os_path_join repo_path (str ".git"))) eqn:Hg.
  2:{ rewrite main_not_a_repository by done. by constructor. }
  destruct (main_valid repo_path grouping_file s Hd Hg) as (gm & lines & ->).
  rewrite try_finally_chdir.
  set (s1 := printed lines (entered repo_path s)).
  destruct (run (cwd s1) [str "git"; str "ls-files"]) as [r|e] eqn:Hrun.
  2:{ rewrite (analyse_raises gm s1 e Hrun). by apply ListingRaised. }
  destruct (decide (returncode r = 0)) as [Hrc|Hrc].
  2:{ rewrite (analyse_nonzero gm s1 r Hrun Hrc). by apply ListingFailed. }
  destruct (analyse_listed gm s1 r Hrun Hrc) as [lines' ->].
  change (cwd s1) with (os_path_join (cwd s) repo_path).
  case_bool_decide as Hac.
  - cbn [fst snd]. subst s1. rewrite <- printed_app, app_assoc.
    by apply NoData with (result := r).
  - destruct (report_run
                (group_counts gm
                   (aggregate (os_path_join (cwd s) repo_path) []
                              (splitlines (stdout r))))
                (printed lines' s1)) as [lines'' ->].
    cbn [fst snd]. subst s1. cbn [printed entered cwd console shown].
    rewrite <- !app_assoc. by apply Charts with (result := r).
Qed.

(** X2.  In a repository without tracked files ([git ls-files] exits with 0
    and prints nothing) [main] returns, the last line it prints is the
    no-data message, and it shows no figure. *)
Theorem empty_repository_reports_no_data
    (repo_path : text) (grouping_file : option text) (s : process)
    (result : completed) :
  isdir (cwd s) repo_path = true ->
  isdir (cwd s) (os_path_join repo_path (str ".git")) = true ->
  run (os_path_join (cwd s) repo_path) [str "git"; str "ls-files"]
  = Return result ->
  returncode result = 0 ->
  stdout result = [] ->
  let outcome := main repo_path grouping_file s in
  outcome.1 = Return tt
  /\ last (console outcome.2) = Some (str "No data available for statistics.")
  /\ shown outcome.2 = shown s.
Proof.
  intros Hd Hg Hls Hrc Hout outcome.
  pose proof (main_runs repo_path grouping_file s) as Hrun.
  fold outcome in Hrun. destruct outcome as [r s']. cbn [fst snd] in *.
  destruct Hrun as [Hd'|Hd' Hg'|e lines _ _ Hls'|res lines _ _ Hls' Hrc'
                    |res lines _ _ Hls' _ _|res gm lines _ _ Hls' _ Hac];
    try congruence.
  - split; [done|]. split; [|done].
    cbn [printed entered console]. rewrite !app_assoc. apply last_snoc.
  - exfalso. apply Hac. rewrite Hls' in Hls. injection Hls as ->.
    by rewrite Hout.
Qed.

End Effects.

(** ** [normalize_name] *)

Lemma isspace_printable (c : N) : (33 <= c <= 126)%N -> isspace c = false.
Proof.
  intros Hc. unfold isspace.
  rewrite (proj2 (N.leb_gt c 13)), (proj2 (N.leb_gt c 32)) by lia.
  rewrite !andb_false_r.
  rewrite (proj2 (N.leb_gt 0x2000 c)) by lia.
  repeat match goal with
         | |- context [(c =? ?n)%N] => rewrite (proj2 (N.eqb_neq c n)) by lia
         end.
  reflexivity.
Qed.

Lemma isspace_ascii_lower (c : N) : isspace (ascii_lower c) = isspace c.
Proof.
  unfold ascii_lower.
  destruct (N.leb_spec 65 c); destruct (N.leb_spec c 90); cbn [andb]; try done.
  by rewrite !isspace_printable by lia.
Qed.

Lemma ascii_lower_idemp (c : N) : ascii_lower (ascii_lower c) = ascii_lower c.
Proof.
  unfold ascii_lower.
  destruct (N.leb_spec 65 c); destruct (N.leb_spec c 90); cbn [andb];
    repeat match goal with
           | |- context [(?a <=? ?b)%N] => destruct (N.leb_spec a b)
           end; cbn [andb]; lia.
Qed.

Lemma lstrip_fmap (f : N -> N) (s : text) :
  (forall c, isspace (f c) = isspace c) -> lstrip (f <$> s) = f <$> lstrip s.
Proof.
  intros Hf. induction s as [|c s IH]; [done|].
  rewrite fmap_cons. cbn [lstrip]. rewrite Hf.
  destruct (isspace c); [exact IH | by rewrite fmap_cons].
Qed.

Lemma strip_fmap (f : N -> N) (s : text) :
  (forall c, isspace (f c) = isspace c) -> strip (f <$> s) = f <$> strip s.
Proof.
  intros Hf. unfold strip, rstrip.
  rewrite (lstrip_fmap f s Hf).
  change (f <$> lstrip s) with (map f (lstrip s)).
  rewrite <- map_rev.
  change (map f (rev (lstrip s))) with (f <$> rev (lstrip s)).
  rewrite (lstrip_fmap f _ Hf).
  change (f <$> lstrip (rev (lstrip s))) with (map f (lstrip (rev (lstrip s)))).
  by rewrite map_rev.
Qed.

Lemma is_ascii_strip (s : text) : is_ascii s -> is_ascii (strip s).
Proof.
  unfold is_ascii. rewrite !Forall_forall. intros H c Hc.
  by apply H, elem_of_strip.
Qed.

Lemma is_ascii_lower (s : text) : is_ascii s -> is_ascii (ascii_lower <$> s).
Proof.
  unfold is_ascii. intros H. apply Forall_fmap. eapply Forall_impl; [exact H|].
  intros c Hc. cbv beta in *. unfold compose, ascii_lower.
  destruct (N.leb_spec 65 c); destruct (N.leb_spec c 90); cbn [andb]; lia.
Qed.

Section Normalization.
Context `{U : Unicode}.

(** C2, where the code departs from it.  [normalize_name] trims and
    lower-cases first and applies NFKC last.  U+2120 SERVICE MARK has no
    lower case mapping and has the compatibility decomposition [SM]; [SM] has
    the lower case [sm], which is in normal form.  In every Unicode database
    that says so, [normalize_name] maps the service mark to [SM] and [SM]
    to [sm]: it is not idempotent, and its result is not in lower case. *)
Theorem normalize_name_service_mark :
  str_lower [0x2120%N] = [0x2120%N] ->
  normalize_NFKC [0x2120%N] = str "SM" ->
  str_lower (str "SM") = str "sm" ->
  normalize_NFKC (str "sm") = str "sm" ->
  normalize_name [0x2120%N] = str "SM"
  /\ normalize_name (str "SM") = str "sm"
  /\ normalize_name (normalize_name [0x2120%N]) <> normalize_name [0x2120%N].
Proof.
  intros Hl Hn Hl' Hn'.
  assert (E1 : normalize_name [0x2120%N] = str "SM").
  { unfold normalize_name. change (strip [0x2120%N]) with [0x2120%N].
    by rewrite Hl, Hn. }
  assert (E2 : normalize_name (str "SM") = str "sm").
  { unfold normalize_name. change (strip (str "SM")) with (str "SM").
    by rewrite Hl', Hn'. }
  split; [done|]. split; [done|]. by rewrite E1, E2.
Qed.

(** X1.  In every Unicode database that lower-cases ASCII strings letter by
    letter and has them in normal form, [normalize_name] is idempotent on
    ASCII strings; and in every database it takes [" Jane "] and ["Jane"] to
    the same string, as it does ["Jane"] and ["jane"] when ASCII is
    lower-cased as said. *)
Theorem normalize_name_on_ascii :
  (forall s, is_ascii s -> str_lower s = ascii_lower <$> s) ->
  (forall s, is_ascii s -> normalize_NFKC s = s) ->
  (forall s, is_ascii s -> normalize_name (normalize_name s) = normalize_name s)
  /\ normalize_name (str " Jane ") = normalize_name (str "Jane")
  /\ normalize_name (str "Jane") = normalize_name (str "jane").
Proof.
  intros Hlower Hnfkc.
  assert (E : forall s, is_ascii s -> normalize_name s = ascii_lower <$> strip s).
  { intros s Hs. unfold normalize_name.
    rewrite (Hlower _ (is_ascii_strip s Hs)).
    apply Hnfkc, is_ascii_lower, is_ascii_strip, Hs. }
  split; [|split].
  - intros s Hs. rewrite (E s Hs).
    rewrite E by apply is_ascii_lower, is_ascii_strip, Hs.
    rewrite (strip_fmap _ _ isspace_ascii_lower), strip_idemp.
    rewrite <- list_fmap_compose. apply list_fmap_ext.
    intros _ c _. apply ascii_lower_idemp.
  - reflexivity.
  - rewrite !E; [reflexivity | |];
      apply Forall_forall; intros c Hc; vm_compute in Hc;
      repeat (apply elem_of_cons in Hc as [->|Hc]; [done|]);
      by apply elem_of_nil in Hc.
Qed.

End Normalization.

(** * Further properties *)

(** ** Trimming *)

Lemma lstrip_app_blank (blanks s : text) :
  Forall (fun c => isspace c = true) blanks -> lstrip (blanks ++ s) = lstrip s.
Proof. induction 1 as [|c l Hc _ IH]; [done|]. simpl. by rewrite Hc. Qed.

Lemma lstrip_app_r (s blanks : text) :
  Forall (fun c => isspace c = true) blanks ->
  lstrip (s ++ blanks) = match lstrip s with [] => [] | _ => lstrip s ++ blanks end.
Proof.
  intros Hb. induction s as [|c s IH]; simpl.
  - by apply lstrip_blank.
  - by destruct (isspace c).
Qed.

Lemma rstrip_app_blank (s blanks : text) :
  Forall (fun c => isspace c = true) blanks -> rstrip (s ++ blanks) = rstrip s.
Proof.
  intros Hb. unfold rstrip. rewrite rev_app_distr.
  by rewrite lstrip_app_blank by by apply Forall_rev.
Qed.

Lemma strip_padding (left right s : text) :
  Forall (fun c => isspace c = true) left ->
  Forall (fun c => isspace c = true) right ->
  strip (left ++ s ++ right) = strip s.
Proof.
  intros Hl Hr. unfold strip.
  rewrite (lstrip_app_blank _ _ Hl), (lstrip_app_r _ _ Hr).
  destruct (lstrip s) as [|c t] eqn:E; [done|].
  by apply rstrip_app_blank.
Qed.

Section NormalizePadding.
Context `{U : Unicode}.

(** X3.  [normalize_name] ignores white space around the name: a name
    between any two runs of white space characters normalizes as the name
    itself does, for every name and in every Unicode database. *)
Theorem normalize_name_ignores_padding (left right name : text) :
  Forall (fun c => isspace c = true) left ->
  Forall (fun c => isspace c = true) right ->
  normalize_name (left ++ name ++ right) = normalize_name name.
Proof.
  intros Hl Hr. unfold normalize_name. by rewrite (strip_padding _ _ _ Hl Hr).
Qed.

End NormalizePadding.

(** ** The lines of the grouping file *)

Lemma split_once_first (c : N) (name rest : text) :
  contains c name = false -> split_once c (name ++ c :: rest) = Some (name, rest).
Proof.
  induction name as [|x name IH]; simpl.
  - by rewrite N.eqb_refl.
  - rewrite N.eqb_sym. destruct (x =? c)%N; [done|]. simpl.
    intros H. by rewrite (IH H).
Qed.

Lemma contains_middle (c : N) (name rest : text) :
  contains c (name ++ c :: rest) = true.
Proof.
  apply contains_elem_of, elem_of_app. right. apply elem_of_cons. by left.
Qed.

Lemma filter_none {A} (P : A -> Prop) `{forall x, Decision (P x)} (l : list A) :
  Forall (fun x => ~ P x) l -> filter P l = [].
Proof.
  induction 1 as [|x l Hx _ IH]; [done|].
  by rewrite filter_cons, decide_False.
Qed.

Lemma split_blank (s : text) :
  Forall blank_or_comma s ->
  Forall (fun piece => strip piece = []) (split (chr ",") s).
Proof.
  assert (H : Forall blank_or_comma s ->
              Forall (Forall (fun c => isspace c = true)) (split (chr ",") s)).
  { induction 1 as [|x s Hx _ IH]; cbn [split].
    - by repeat constructor.
    - destruct (N.eqb_spec x (chr ",")) as [->|Hne]; [by constructor|].
      destruct Hx as [Hx|Hx]; [|done].
      destruct (split (chr ",") s) as [|h t]; [by repeat constructor|].
      apply Forall_cons in IH as [Hh Ht]. by repeat constructor. }
  intros Hs. eapply Forall_impl; [by apply H|].
  intros piece Hp. by apply strip_blank.
Qed.

Section Lines.
Context `{U : Unicode}.

(** X4.  A line splits at its first colon.  When the trimmed line is
    [name:rest] with no colon in [name] and is no comment, the group is the
    trimmed [name] (the empty name included) and the aliases are the trimmed
    non-blank pieces of [rest] between commas: colons after the first belong
    to the aliases. *)
Theorem grouping_line_splits_at_first_colon (line name rest : text) :
  strip line = name ++ chr ":" :: rest ->
  contains (chr ":") name = false ->
  startswith name (str "#") = false ->
  parse_grouping_line line
  = Some (strip name,
          strip <$> filter (fun alias => strip alias <> [])
                           (split (chr ",") rest)).
Proof.
  intros E Hname Hhash. unfold parse_grouping_line. rewrite E.
  rewrite bool_decide_eq_false_2 by by destruct name.
  assert (Hh : startswith (name ++ chr ":" :: rest) (str "#") = false).
  { destruct name as [|c name]; [done|]. exact Hhash. }
  rewrite Hh, contains_middle. cbn [orb negb].
  by rewrite (split_once_first _ _ _ Hname).
Qed.

(** X5.  After a line that lists aliases under a group, every listed alias
    resolves to the group through its normalized form, so does every author
    whose normalized name is that of a listed alias, and the keys that are no
    normalized alias of the line keep what they had. *)
Theorem grouping_line_registers_its_aliases
    (mapping : gmap text text) (line group_name : text) (aliases : list text) :
  parse_grouping_line line = Some (group_name, aliases) ->
  (forall alias, alias ∈ aliases ->
     grouping_line mapping line !! normalize_name alias = Some group_name)
  /\ (forall alias author, alias ∈ aliases ->
        normalize_name author = normalize_name alias ->
        group_of (grouping_line mapping line) author = group_name)
  /\ (forall key, key ∉ normalize_name <$> aliases ->
        grouping_line mapping line !! key = mapping !! key).
Proof.
  intros Hline.
  assert (E : forall key, grouping_line mapping line !! key
                = if decide (key ∈ normalize_name <$> aliases)
                  then Some group_name else mapping !! key).
  { intros key. unfold grouping_line. rewrite Hline.
    apply register_aliases_lookup. }
  assert (Hin : forall alias, alias ∈ aliases ->
                  grouping_line mapping line !! normalize_name alias
                  = Some group_name).
  { intros alias Ha. rewrite E, decide_True; [done|].
    apply list_elem_of_fmap. by exists alias. }
  split; [exact Hin|]. split.
  - intros alias author Ha Hn. unfold group_of. by rewrite Hn, (Hin alias Ha).
  - intros key Hkey. by rewrite E, decide_False.
Qed.

(** X6.  A line whose alias list is blank (nothing after the first colon,
    or only white space and commas) registers nothing: the mapping after it
    is the mapping before it. *)
Theorem blank_alias_list_registers_nothing
    (mapping : gmap text text) (line name rest : text) :
  split_once (chr ":") (strip line) = Some (name, rest) ->
  Forall blank_or_comma rest ->
  grouping_line mapping line = mapping.
Proof.
  intros Hs Hrest. unfold grouping_line.
  destruct (parse_grouping_line line) as [[g als]|] eqn:E; [|done].
  apply parse_valid in E as (name' & rest' & Hs' & _ & ->).
  rewrite Hs in Hs'. injection Hs' as <- <-.
  assert (Hnil : filter (fun alias => strip alias <> []) (split (chr ",") rest) = []).
  { apply filter_none. eapply Forall_impl; [by apply split_blank|].
    intros piece Hp Hne. by apply Hne. }
  by rewrite Hnil.
Qed.

End Lines.

(** ** The loaded mapping holds what the file says, and nothing else *)

Section Loaded.
Context `{U : Unicode}.

Lemma grouping_lines_origin (mapping : gmap text text) (lines : list text)
    (key group_name : text) :
  foldl grouping_line mapping lines !! key = Some group_name ->
  mapping !! key = Some group_name
  \/ exists line aliases alias,
       line ∈ lines
       /\ parse_grouping_line line = Some (group_name, aliases)
       /\ alias ∈ aliases /\ key = normalize_name alias.
Proof.
  revert mapping.
  induction lines as [|l lines IH]; intros mapping H; cbn [foldl] in H; [by left|].
  apply IH in H as [H|(line & als & alias & Hin & Hp & Ha & ->)].
  - unfold grouping_line in H.
    destruct (parse_grouping_line l) as [[g als]|] eqn:E; [|by left].
    rewrite register_aliases_lookup in H.
    destruct (decide (key ∈ normalize_name <$> als)) as [Hk|Hk]; [|by left].
    injection H as ->. apply list_elem_of_fmap in Hk as (alias & -> & Ha).
    right. exists l, als, alias. split; [apply elem_of_cons; by left | done].
  - right. exists line, als, alias. split; [apply elem_of_cons; by right | done].
Qed.

(** X7.  The loaded mapping holds nothing the file does not say: an entry
    of the mapping built from the lines of the file is the normalized form of
    an alias listed on one of the lines, under the group of that line; the
    alias is trimmed and not empty, and the group name is trimmed. *)
Theorem loaded_entries_come_from_the_file
    (lines : list text) (key group_name : text) :
  foldl grouping_line ∅ lines !! key = Some group_name ->
  exists line aliases alias,
    line ∈ lines
    /\ parse_grouping_line line = Some (group_name, aliases)
    /\ alias ∈ aliases
    /\ key = normalize_name alias
    /\ alias <> [] /\ strip alias = alias
    /\ strip group_name = group_name.
Proof.
  intros H. apply grouping_lines_origin in H as [H|H].
  { by rewrite lookup_empty in H. }
  destruct H as (line & als & alias & Hin & Hp & Ha & ->).
  exists line, als, alias. repeat (split; [done|]).
  destruct (parse_valid _ _ _ Hp) as (name & rest & _ & -> & ->).
  apply list_elem_of_fmap in Ha as (piece & -> & Hpiece).
  apply list_elem_of_filter in Hpiece as [Hne _].
  split; [done|]. split; apply strip_idemp.
Qed.

End Loaded.

(** ** The author counts of a run *)

Section AuthorCounts.
Import Counter CounterFacts.

Lemma blame_line_count (author : text) (d : counter) (line : text) :
  count author (blame_line d line)
  = count author d
    + (if decide (startswith line (str "author ") = true
                  /\ strip (drop 7 line) = author)
       then 1 else 0).
Proof.
  destruct (startswith line (str "author ")) eqn:Ha.
  - rewrite (blame_line_author _ _ Ha), count_add.
    destruct (decide (strip (drop 7 line) = author)) as [E|E].
    + by rewrite decide_True.
    + rewrite decide_False; [done|]. by intros [_ ?].
  - rewrite (blame_line_other_header _ _ Ha).
    rewrite decide_False; [lia|]. by intros [? _].
Qed.

Lemma blame_lines_count (author : text) (d : counter) (lines : list text) :
  count author (blame_lines d lines)
  = count author d
    + Z.of_nat (length (filter (fun line =>
                                  startswith line (str "author ") = true
                                  /\ strip (drop 7 line) = author) lines)).
Proof.
  unfold blame_lines. revert d.
  induction lines as [|l lines IH]; intros d; cbn [foldl].
  - rewrite filter_nil. simpl. lia.
  - rewrite IH, blame_line_count, filter_cons.
    destruct (decide _); cbn [length]; lia.
Qed.

Lemma blame_line_total (d : counter) (line : text) :
  total (blame_line d line)
  = total d + (if startswith line (str "author ") then 1 else 0).
Proof.
  destruct (startswith line (str "author ")) eqn:Ha.
  - by rewrite (blame_line_author _ _ Ha), total_add.
  - rewrite (blame_line_other_header _ _ Ha). lia.
Qed.

(** X8.  Parsing porcelain lines counts headers and nothing else: for every
    author the count after the lines is the count before plus the number of
    lines that begin with [author ] and whose trimmed rest is that author,
    and the counts add up to what they were plus the number of lines that
    begin with [author ]. *)
Theorem blame_lines_count_the_author_headers
    (author_counts : counter) (lines : list text) :
  (forall author,
     count author (blame_lines author_counts lines)
     = count author author_counts
       + Z.of_nat (length (filter (fun line =>
                                     startswith line (str "author ") = true
                                     /\ strip (drop 7 line) = author) lines)))
  /\ total (blame_lines author_counts lines)
     = total author_counts
       + Z.of_nat (length (filter (fun line =>
                                     startswith line (str "author ") = true)
                                  lines)).
Proof.
  split; [intros author; apply blame_lines_count|].
  unfold blame_lines. revert author_counts.
  induction lines as [|l lines IH]; intros d; cbn [foldl].
  - rewrite filter_nil. simpl. lia.
  - rewrite IH, blame_line_total, filter_cons.
    destruct (startswith l (str "author ")).
    + rewrite decide_True by done. cbn [length]. lia.
    + rewrite decide_False by done. lia.
Qed.

Lemma add_positive (k : text) (n : Z) (d : counter) :
  0 < n -> positive d -> positive (add k n d).
Proof.
  unfold positive. intros Hn. induction 1 as [|[k' v] d Hv Hd IH]; cbn [add].
  - by repeat constructor.
  - destruct (decide (k' = k)); constructor; simpl in *; (lia || done).
Qed.

Lemma add_trimmed_keys (k : text) (n : Z) (d : counter) :
  strip k = k -> trimmed_keys d -> trimmed_keys (add k n d).
Proof.
  unfold trimmed_keys. intros Hk. induction 1 as [|[k' v] d Hv Hd IH]; cbn [add].
  - by repeat constructor.
  - destruct (decide (k' = k)); by constructor.
Qed.

Lemma blame_lines_invariant (d : counter) (lines : list text) :
  NoDup (keys d) -> positive d -> trimmed_keys d ->
  NoDup (keys (blame_lines d lines))
  /\ positive (blame_lines d lines)
  /\ trimmed_keys (blame_lines d lines).
Proof.
  unfold blame_lines. revert d.
  induction lines as [|l lines IH]; intros d Hn Hp Ht; cbn [foldl]; [done|].
  destruct (startswith l (str "author ")) eqn:Ha.
  - rewrite (blame_line_author _ _ Ha). apply IH.
    + by apply NoDup_keys_add.
    + by apply add_positive.
    + apply add_trimmed_keys; [apply strip_idemp | done].
  - rewrite (blame_line_other_header _ _ Ha). by apply IH.
Qed.

End AuthorCounts.

Section Aggregate.
Context `{OS : System}.
Import Counter CounterFacts.

Lemma blame_counts_output (dir file_path : text) (d : counter) :
  blame_counts d (run dir (blame_argv file_path))
  = blame_lines d (blame_output dir file_path).
Proof.
  unfold blame_counts, blame_output.
  destruct (run dir (blame_argv file_path)) as [r|e]; [|done].
  by destruct (_ || _).
Qed.

Lemma aggregate_concat (dir : text) (d : counter) (files : list text) :
  aggregate dir d files = blame_lines d (files ≫= blame_output dir).
Proof.
  unfold aggregate. revert d.
  induction files as [|f files IH]; intros d; cbn [foldl]; [done|].
  rewrite IH, blame_counts_output, bind_cons. unfold blame_lines.
  by rewrite foldl_app.
Qed.

(** X9.  The author counts of a run are well formed, whatever [git] prints:
    no author appears twice, every author name is trimmed, and every count
    is at least 1. *)
Theorem author_counts_are_well_formed (dir : text) (files : list text) :
  NoDup (keys (aggregate dir [] files))
  /\ positive (aggregate dir [] files)
  /\ trimmed_keys (aggregate dir [] files).
Proof.
  rewrite aggregate_concat. apply blame_lines_invariant.
  - constructor.
  - constructor.
  - constructor.
Qed.

(** X10.  The loop over the files counts the author headers of the files
    whose blame succeeded: the count of an author after the loop is the
    count before plus the number of lines, in the outputs of all the files
    taken together, that begin with [author ] and name that author. *)
Theorem aggregate_counts_the_headers_of_all_files
    (dir : text) (author_counts : counter) (files : list text) (author : text) :
  count author (aggregate dir author_counts files)
  = count author author_counts
    + Z.of_nat (length (filter (fun line =>
                                  startswith line (str "author ") = true
                                  /\ strip (drop 7 line) = author)
                               (files ≫= blame_output dir))).
Proof. rewrite aggregate_concat. apply blame_lines_count. Qed.

(** X11.  The counts do not depend on the order in which [git ls-files]
    lists the files: two listings with the same files, each as often, give
    every author the same count. *)
Theorem aggregate_ignores_the_order_of_files
    (dir : text) (author_counts : counter) (files files' : list text) :
  files ≡ₚ files' ->
  forall author,
    count author (aggregate dir author_counts files)
    = count author (aggregate dir author_counts files').
Proof.
  intros Hperm author. rewrite !aggregate_concat, !blame_lines_count.
  do 2 f_equal. apply Permutation_length. by rewrite Hperm.
Qed.

End Aggregate.

(** ** Grouping *)

Section GroupingMore.
Context `{U : Unicode}.
Import Counter CounterFacts.

Lemma group_loop_unmatched (gm : gmap text text) (ac grouped : counter) :
  (forall author, author ∈ keys ac -> gm !! normalize_name author = None) ->
  NoDup (keys (grouped ++ ac)) ->
  foldl (group_step gm) grouped ac = grouped ++ ac.
Proof.
  revert grouped.
  induction ac as [|[a c] ac IH]; intros grouped Hgm Hnd; cbn [foldl].
  - by rewrite app_nil_r.
  - cbn [group_step]. unfold group_of.
    rewrite (Hgm a) by (apply elem_of_cons; by left). cbn [default].
    rewrite keys_add_fresh.
    + rewrite IH.
      * by rewrite <- app_assoc.
      * intros b Hb. apply Hgm. apply elem_of_cons. by right.
      * by rewrite <- app_assoc.
    + unfold keys in *. rewrite fmap_app, fmap_cons in Hnd.
      apply NoDup_app in Hnd as (_ & Hnd & _). intros Hin.
      apply (Hnd a Hin). apply elem_of_cons. by left.
Qed.

(** X12.  Names are normalized to look them up, not to merge them: when no
    author of the counts has its normalized name in the mapping, the grouped
    counts are the author counts, entry by entry and in the same order; two
    authors that differ in case only stay two rows. *)
Theorem unmatched_authors_are_reported_as_they_are
    (group_mapping : gmap text text) (author_counts : counter) :
  (forall author, author ∈ keys author_counts ->
     group_mapping !! normalize_name author = None) ->
  NoDup (keys author_counts) ->
  group_counts group_mapping author_counts = author_counts.
Proof.
  intros Hgm Hnd. rewrite group_counts_foldl. by apply group_loop_unmatched.
Qed.

Lemma add_length (k : text) (n : Z) (d : counter) :
  (length (add k n d) <= S (length d))%nat.
Proof.
  induction d as [|[k' v] d IH]; cbn [add length]; [lia|].
  destruct (decide (k' = k)); cbn [length]; lia.
Qed.

Lemma group_loop_length (gm : gmap text text) (ac grouped : counter) :
  (length (foldl (group_step gm) grouped ac) <= length grouped + length ac)%nat.
Proof.
  revert grouped. induction ac as [|[a c] ac IH]; intros grouped; cbn [foldl length].
  - lia.
  - etrans; [apply IH|]. cbn [group_step].
    pose proof (add_length (group_of gm a) c grouped). lia.
Qed.

Lemma group_loop_positive (gm : gmap text text) (ac grouped : counter) :
  positive grouped -> positive ac -> positive (foldl (group_step gm) grouped ac).
Proof.
  revert grouped.
  induction ac as [|[a c] ac IH]; intros grouped Hg Hac; cbn [foldl]; [done|].
  apply Forall_cons in Hac as [Hc Hac]. apply IH; [|done].
  cbn [group_step]. by apply add_positive.
Qed.

(** X13.  Grouping merges rows and never invents one: the grouped counts
    have at most as many rows as there are authors, and when every author
    count is positive so is every grouped count (no empty bar, no empty
    slice). *)
Theorem grouping_only_merges_rows
    (group_mapping : gmap text text) (author_counts : counter) :
  (length (group_counts group_mapping author_counts) <= length author_counts)%nat
  /\ (positive author_counts ->
      positive (group_counts group_mapping author_counts)).
Proof.
  rewrite group_counts_foldl. split.
  - apply (group_loop_length group_mapping author_counts []).
  - intros H. apply group_loop_positive; [constructor | done].
Qed.

End GroupingMore.

(** ** The run as a whole *)

Section Run.
Context `{U : Unicode} `{OS : System}.
Import Counter CounterFacts.

Lemma load_run (path : text) (s : process) :
  exists lines,
    load_grouping_mapping path s
    = (Return (loaded_mapping (cwd s) path), printed lines s)
    /\ (length lines <= 1)%nat.
Proof.
  unfold loaded_mapping. destruct (isfile (cwd s) path) eqn:H.
  - destruct (read_lines (cwd s) path) as [lines|e] eqn:He.
    + exists []. rewrite printed_nil. split; [by apply load_ok | simpl; lia].
    + eexists [_]. split; [by apply load_failed | simpl; lia].
  - eexists [_]. split; [by apply load_missing | simpl; lia].
Qed.

(** X14.  While the console takes what it prints (X19 has the other
    runs), the loader never raises, whatever the file system does: it
    returns the mapping of the lines of the file, or the empty mapping when
    the file is missing or unreadable; it prints at most one line and leaves
    the working directory and the figures alone. *)
Theorem loader_never_raises (path : text) (s : process) :
  exists lines,
    load_grouping_mapping path s
    = (Return (if isfile (cwd s) path then
                 match read_lines (cwd s) path with
                 | Return file_lines => foldl grouping_line ∅ file_lines
                 | Raise _ => ∅
                 end
               else ∅),
       printed lines s)
    /\ (length lines <= 1)%nat.
Proof. apply load_run. Qed.

Lemma choose_grouping_file_exact (grouping_file : option text) (s : process) :
  choose_grouping_file grouping_file s
  = (Return (grouping_path grouping_file (cwd s)), s).
Proof.
  unfold choose_grouping_file, grouping_path.
  destruct grouping_file as [path|]; [by destruct (bool_decide _)|done].
Qed.

Lemma main_valid_exact (repo_path : text) (grouping_file : option text)
    (s : process) :
  isdir (cwd s) repo_path = true ->
  isdir (cwd s) (os_path_join repo_path (str ".git")) = true ->
  let root := os_path_join (cwd s) repo_path in
  exists lines,
    main repo_path grouping_file s
    = try_finally
        (analyse (loaded_mapping root (grouping_path grouping_file root)))
        (os_chdir (cwd s))
        (printed lines (entered repo_path s)).
Proof.
  intros Hd Hg root. unfold main. rewrite bind_run. unfold os_path_isdir at 1.
  rewrite Hd. cbn [negb]. rewrite bind_run. unfold os_path_isdir.
  rewrite Hg. cbn [negb]. rewrite bind_run, os_getcwd_run.
  rewrite bind_run, os_chdir_run.
  rewrite bind_run, choose_grouping_file_exact, bind_run, print_run.
  change (cwd (entered repo_path s)) with root.
  destruct (load_run (grouping_path grouping_file root)
              (printed [str "Looking for grouping file at: "
                        ++ grouping_path grouping_file root]
                       (entered repo_path s)))
    as (lines & Hload & _).
  rewrite bind_run, Hload, bind_run, print_run, <- !printed_app.
  change (cwd (printed _ (entered repo_path s))) with root.
  by eexists.
Qed.

Lemma main_charts (repo_path : text) (grouping_file : option text)
    (s : process) (result : completed) :
  isdir (cwd s) repo_path = true ->
  isdir (cwd s) (os_path_join repo_path (str ".git")) = true ->
  let root := os_path_join (cwd s) repo_path in
  run root [str "git"; str "ls-files"] = Return result ->
  returncode result = 0 ->
  let author_counts := aggregate root [] (splitlines (stdout result)) in
  author_counts <> [] ->
  shown (main repo_path grouping_file s).2
  = shown s
    ++ [figure_of
          (sort_values
             (group_counts (loaded_mapping root (grouping_path grouping_file root))
                           author_counts))].
Proof.
  intros Hd Hg root Hls Hrc author_counts Hac.
  destruct (main_valid_exact repo_path grouping_file s Hd Hg) as [lines ->].
  fold root. rewrite try_finally_chdir. cbn [snd entered shown].
  set (s1 := printed lines (entered repo_path s)).
  destruct (analyse_listed
              (loaded_mapping root (grouping_path grouping_file root))
              s1 result Hls Hrc) as [lines' ->].
  change (cwd s1) with root. fold author_counts.
  rewrite bool_decide_eq_false_2 by done.
  destruct (report_run
              (group_counts (loaded_mapping root (grouping_path grouping_file root))
                            author_counts)
              (printed lines' s1)) as [lines'' ->].
  reflexivity.
Qed.

(** X15.  The grouping file is looked for after the change of directory:
    the chart of a run groups by the mapping that the loader finds with the
    repository root as working directory, so a relative [--grouping-file]
    names a file under the repository, not under the directory the tool was
    started in. *)
Theorem report_groups_by_the_mapping_found_from_the_root
    (repo_path : text) (grouping_file : option text) (s : process)
    (result : completed) :
  isdir (cwd s) repo_path = true ->
  isdir (cwd s) (os_path_join repo_path (str ".git")) = true ->
  let root := os_path_join (cwd s) repo_path in
  run root [str "git"; str "ls-files"] = Return result ->
  returncode result = 0 ->
  let author_counts := aggregate root [] (splitlines (stdout result)) in
  author_counts <> [] ->
  let path :=
    match grouping_file with
    | Some path =>
        if bool_decide (path = []) then
          os_path_join (script_dir root) (str "grouping.txt")
        else path
    | None => os_path_join (script_dir root) (str "grouping.txt")
    end in
  let group_mapping :=
    if isfile root path then
      match read_lines root path with
      | Return file_lines => foldl grouping_line ∅ file_lines
      | Raise _ => ∅
      end
    else ∅ in
  shown (main repo_path grouping_file s).2
  = shown s ++ [figure_of (sort_values (group_counts group_mapping author_counts))].
Proof.
  intros Hd Hg root Hls Hrc author_counts Hac path group_mapping.
  by apply main_charts.
Qed.

Lemma total_Permutation (d d' : counter) : d ≡ₚ d' -> total d = total d'.
Proof.
  induction 1 as [|[k v] d d' _ IH|[k v] [k' v'] d|d d' d'' _ IH1 _ IH2].
  - done.
  - by rewrite !total_cons, IH.
  - rewrite !total_cons. lia.
  - by rewrite IH1.
Qed.

Lemma total_values (d : counter) : total d = foldr Z.add 0 (snd <$> d).
Proof.
  induction d as [|[k v] d IH]; [done|].
  by rewrite total_cons, fmap_cons, IH.
Qed.

(** X16.  The chart accounts for every blamed line.  When the sort of the
    table is a permutation of its rows, the figure of a run has one bar per
    name and no name twice, every bar is positive, the bars add up to the
    number of lines that begin with [author ] in the outputs of [git blame]
    of all tracked files, and the pie chart has the values and names of the
    bars. *)
Theorem chart_accounts_for_every_blamed_line
    (repo_path : text) (grouping_file : option text) (s : process)
    (result : completed) :
  (forall table : rows, sort_values table ≡ₚ table) ->
  isdir (cwd s) repo_path = true ->
  isdir (cwd s) (os_path_join repo_path (str ".git")) = true ->
  let root := os_path_join (cwd s) repo_path in
  run root [str "git"; str "ls-files"] = Return result ->
  returncode result = 0 ->
  let files := splitlines (stdout result) in
  aggregate root [] files <> [] ->
  exists fig,
    shown (main repo_path grouping_file s).2 = shown s ++ [fig]
    /\ NoDup (bar_x fig)
    /\ Forall (fun height => 0 < height) (bar_height fig)
    /\ foldr Z.add 0 (bar_height fig)
       = Z.of_nat (length (filter (fun line =>
                                     startswith line (str "author ") = true)
                                  (files ≫= blame_output root)))
    /\ pie_x fig = bar_height fig
    /\ pie_labels fig = bar_x fig.
Proof.
  intros Hsort Hd Hg root Hls Hrc files Hac.
  set (gm := loaded_mapping root (grouping_path grouping_file root)).
  set (grouped := group_counts gm (aggregate root [] files)).
  exists (figure_of (sort_values grouped)).
  split; [by apply main_charts|].
  unfold figure_of. cbn [bar_x bar_height pie_x pie_labels].
  split; [|split; [|split; [|done]]].
  - rewrite (Hsort grouped). unfold grouped. rewrite group_counts_foldl.
    apply (group_loop_NoDup gm). constructor.
  - apply Forall_fmap. rewrite (Hsort grouped).
    unfold grouped. rewrite group_counts_foldl.
    apply group_loop_positive; [constructor|].
    rewrite aggregate_concat.
    by apply blame_lines_invariant; constructor.
  - rewrite <- total_values, (total_Permutation _ _ (Hsort grouped)).
    unfold grouped. rewrite group_counts_foldl, group_loop_total, total_nil.
    rewrite aggregate_concat.
    assert (Ht : forall d lines,
               total (blame_lines d lines)
               = total d
                 + Z.of_nat (length (filter (fun line =>
                      startswith line (str "author ") = true) lines))).
    { intros d lines. unfold blame_lines. revert d.
      induction lines as [|l lines IH]; intros d; cbn [foldl].
      - rewrite filter_nil. simpl. lia.
      - rewrite IH, blame_line_total, filter_cons.
        destruct (startswith l (str "author ")).
        + rewrite decide_True by done. cbn [length]. lia.
        + rewrite decide_False by done. lia. }
    rewrite Ht, total_nil. lia.
Qed.

Lemma progress_cons (total_files index : nat) (file : text) (files : list text) :
  progress total_files index (file :: files)
  = (if (index mod 100 =? 0)%nat || (index =? total_files)%nat then
       [str "Processing file " ++ decimal index ++ str "/"
        ++ decimal total_files ++ str ": " ++ file]
     else [])
    ++ progress total_files (S index) files.
Proof. reflexivity. Qed.

Lemma progress_last (total_files index : nat) (files : list text) (file : text) :
  last files = Some file ->
  total_files = (index + length files - 1)%nat ->
  last (progress total_files index files)
  = Some (str "Processing file " ++ decimal total_files ++ str "/"
          ++ decimal total_files ++ str ": " ++ file).
Proof.
  revert index. induction files as [|f files IH]; intros index Hl Ht; [done|].
  destruct files as [|g files].
  - injection Hl as ->. cbn [length] in Ht.
    assert (index = total_files) as -> by lia.
    rewrite progress_cons, Nat.eqb_refl, orb_true_r. reflexivity.
  - rewrite last_cons_cons in Hl. rewrite progress_cons, last_app.
    rewrite (IH (S index) Hl); [done|]. cbn [length] in *. lia.
Qed.

Lemma progress_length (total_files index : nat) (files : list text) :
  (length (progress total_files index files) <= length files)%nat.
Proof.
  revert index. induction files as [|f files IH]; intros index; [done|].
  rewrite progress_cons, length_app. specialize (IH (S index)).
  destruct (_ || _); cbn [length]; lia.
Qed.

(** X17.  The loop over the files announces its last file and is quiet
    otherwise: with the number of files as total and counting from 1, the
    last line it prints names the last file as file n of n, and it prints at
    most one line per file. *)
Theorem last_file_is_announced
    (files : list text) (file : text) (author_counts : counter) (s : process) :
  last files = Some file ->
  let n := length files in
  let s' := (blame_files n 1 author_counts files s).2 in
  last (console s')
  = Some (str "Processing file " ++ decimal n ++ str "/" ++ decimal n
          ++ str ": " ++ file)
  /\ (length (console s') <= length (console s) + n)%nat.
Proof.
  intros Hl n s'. subst s'. rewrite blame_files_run. cbn [snd printed console].
  split.
  - rewrite last_app, (progress_last n 1 files file Hl); [done|]. lia.
  - rewrite length_app. pose proof (progress_length n 1 files). lia.
Qed.

End Run.

(** * The run when an unguarded call raises *)

Section Faulty.
Context `{U : Unicode} `{OS : System} `{F : Faults}.

Lemma perform_app (cs1 cs2 : list call) (s : process) :
  perform (cs1 ++ cs2) s
  = match perform cs1 s with
    | (Return _, s') => perform cs2 s'
    | (Raise e, s') => (Raise e, s')
    end.
Proof.
  revert s. induction cs1 as [|c cs1 IH]; intros s; cbn [perform app]; [done|].
  destruct (fault s c); [done|]. apply IH.
Qed.

Lemma after_calls_app (cs1 cs2 : list call) (s : process) :
  after_calls (cs1 ++ cs2) s = after_calls cs2 (after_calls cs1 s).
Proof. unfold after_calls. by rewrite foldl_app. Qed.

Lemma refused_nil (s : process) : ~ refused [] s.
Proof. intros (before & c & after & E & _). by destruct before. Qed.

Lemma refused_cons (c : call) (cs : list call) (s : process) :
  refused (c :: cs) s <-> fault s c <> None \/ refused cs (after_call c s).
Proof.
  split.
  - intros (before & c' & after & E & Hc').
    destruct before as [|c0 before]; simpl in E; injection E as -> ->.
    + by left.
    + right. by exists before, c', after.
  - intros [Hc|(before & c' & after & -> & Hc')].
    + by exists [], c, cs.
    + by exists (c :: before), c', after.
Qed.

Lemma refused_app (cs1 cs2 : list call) (s : process) :
  refused (cs1 ++ cs2) s <-> refused cs1 s \/ refused cs2 (after_calls cs1 s).
Proof.
  revert s. induction cs1 as [|c cs1 IH]; intros s.
  - split; [by right|]. intros [H|H]; [by apply refused_nil in H | done].
  - change ((c :: cs1) ++ cs2) with (c :: (cs1 ++ cs2)).
    rewrite !refused_cons, IH.
    change (after_calls (c :: cs1) s) with (after_calls cs1 (after_call c s)).
    tauto.
Qed.

(** Either every call returns, or the first call that raises ends the
    sequence with its exception, in the process that the calls before it
    leave. *)
Lemma perform_cases (cs : list call) (s : process) :
  (~ refused cs s /\ perform cs s = (Return tt, after_calls cs s))
  \/ (exists before c after e,
        cs = before ++ c :: after
        /\ ~ refused before s
        /\ fault (after_calls before s) c = Some e
        /\ perform cs s = (Raise e, after_calls before s)).
Proof.
  revert s. induction cs as [|c cs IH]; intros s; cbn [perform].
  - left. split; [apply refused_nil | done].
  - destruct (fault s c) as [e|] eqn:Hc.
    + right. exists [], c, cs, e. split; [done|]. split; [apply refused_nil|].
      by split.
    + destruct (IH (after_call c s))
        as [[Hok ->]|(before & c' & after & e & -> & Hok & Hc' & ->)].
      * left. split; [|done]. rewrite refused_cons. intros [H|H]; [|done].
        by rewrite Hc in H.
      * right. exists (c :: before), c', after, e. split; [done|].
        split; [|done]. rewrite refused_cons. intros [H|H]; [|done].
        by rewrite Hc in H.
Qed.

Lemma perform_returns (cs : list call) (s : process) :
  ~ refused cs s -> perform cs s = (Return tt, after_calls cs s).
Proof.
  intros Hok.
  destruct (perform_cases cs s)
    as [[_ H]|(before & c & after & e & -> & _ & Hc & _)]; [done|].
  exfalso. apply Hok. exists before, c, after. split; [done|]. by rewrite Hc.
Qed.

Lemma perform_raises (cs : list call) (s : process) :
  refused cs s ->
  exists before c after e,
    cs = before ++ c :: after
    /\ fault (after_calls before s) c = Some e
    /\ perform cs s = (Raise e, after_calls before s).
Proof.
  intros Href.
  destruct (perform_cases cs s)
    as [[Hok _]|(before & c & after & e & -> & _ & Hc & ->)]; [done|].
  by exists before, c, after, e.
Qed.

Lemma after_prints (lines : list text) (s : process) :
  after_calls (Print <$> lines) s = printed lines s.
Proof.
  revert s. induction lines as [|l lines IH]; intros s.
  - by rewrite printed_nil.
  - change (after_calls (Print <$> l :: lines) s)
      with (after_calls (Print <$> lines) (printed [l] s)).
    rewrite IH. by rewrite (printed_app [l] lines).
Qed.

Lemma shown_after_calls (cs : list call) (s : process) :
  shown (after_calls cs s) = shown s ++ figures_shown cs.
Proof.
  revert s. induction cs as [|c cs IH]; intros s.
  - by rewrite app_nil_r.
  - change (after_calls (c :: cs) s) with (after_calls cs (after_call c s)).
    rewrite IH. destruct c; cbn; try done. by rewrite <- app_assoc.
Qed.

Lemma console_after_calls (cs : list call) (s : process) :
  console (after_calls cs s) = console s ++ lines_printed cs.
Proof.
  revert s. induction cs as [|c cs IH]; intros s.
  - by rewrite app_nil_r.
  - change (after_calls (c :: cs) s) with (after_calls cs (after_call c s)).
    rewrite IH. destruct c; cbn; try done. by rewrite <- app_assoc.
Qed.

Lemma figures_shown_app (cs1 cs2 : list call) :
  figures_shown (cs1 ++ cs2) = figures_shown cs1 ++ figures_shown cs2.
Proof. apply omap_app. Qed.

Lemma lines_printed_app (cs1 cs2 : list call) :
  lines_printed (cs1 ++ cs2) = lines_printed cs1 ++ lines_printed cs2.
Proof. apply omap_app. Qed.

Lemma figures_shown_prints (lines : list text) :
  figures_shown (Print <$> lines) = [].
Proof. by induction lines. Qed.

Lemma lines_printed_prints (lines : list text) :
  lines_printed (Print <$> lines) = lines.
Proof. induction lines as [|l lines IH]; [done|]. cbn. by f_equal. Qed.

Lemma cwd_after_prints (lines : list text) (s : process) :
  cwd (after_calls (Print <$> lines) s) = cwd s.
Proof.
  revert s. induction lines as [|l lines IH]; intros s; [done|].
  exact (IH (after_call (Print l) s)).
Qed.

Lemma print_calls (line : text) (s : process) :
  print line s = perform [Print line] s.
Proof. unfold print. cbn [perform]. by destruct (fault s (Print line)). Qed.

Lemma plt_show_calls (fig : figure) (s : process) :
  plt_show fig s = perform [Plot fig] s.
Proof. unfold plt_show. cbn [perform]. by destruct (fault s (Plot fig)). Qed.

Lemma os_chdir_calls (path : text) (s : process) :
  os_chdir path s = perform [Chdir path] s.
Proof. unfold os_chdir. cbn [perform]. by destruct (fault s (Chdir path)). Qed.

Lemma bind_returning {A B} (m : M A) (f : A -> M B) (v : A)
    (cs : list call) (s : process) :
  m s = returning v (perform cs s) ->
  (m ≫= f) s
  = match perform cs s with
    | (Return _, s') => f v s'
    | (Raise e, s') => (Raise e, s')
    end.
Proof.
  intros H. rewrite bind_run, H. unfold returning.
  by destruct (perform cs s) as [[[]|e] s'].
Qed.

Lemma bind_calls {B} (m : M unit) (f : unit -> M B)
    (cs : list call) (s : process) :
  m s = perform cs s ->
  (m ≫= f) s
  = match perform cs s with
    | (Return _, s') => f tt s'
    | (Raise e, s') => (Raise e, s')
    end.
Proof.
  intros H. rewrite bind_run, H.
  by destruct (perform cs s) as [[[]|e] s'].
Qed.

(** *** The loader *)

Lemma load_calls (path : text) (s : process) :
  load_grouping_mapping path s
  = returning (loaded_mapping (cwd s) path)
              (perform (Print <$> loader_lines (cwd s) path) s).
Proof.
  unfold load_grouping_mapping, loader_lines, loaded_mapping.
  rewrite bind_run. unfold os_path_isfile.
  destruct (isfile (cwd s) path); cbn [negb].
  - unfold try_except. rewrite bind_run. unfold open_lines.
    destruct (read_lines (cwd s) path) as [lines|e]; [done|].
    rewrite (bind_calls _ _ _ _ (print_calls _ s)).
    unfold returning. rewrite fmap_cons, fmap_nil.
    by destruct (perform _ s) as [[[]|e'] s'].
  - rewrite (bind_calls _ _ _ _ (print_calls _ s)).
    unfold returning. rewrite fmap_cons, fmap_nil.
    by destruct (perform _ s) as [[[]|e'] s'].
Qed.

(** *** The loop over the files *)

Lemma blame_files_calls (total_files index : nat) (author_counts : counter)
    (files : list text) (s : process) :
  blame_files total_files index author_counts files s
  = returning (aggregate (cwd s) author_counts files)
              (perform (Print <$> progress total_files index files) s).
Proof.
  revert index author_counts s.
  induction files as [|f files IH]; intros index ac s; [done|].
  cbn [blame_files]. rewrite progress_cons, fmap_app, perform_app.
  destruct ((index mod 100 =? 0)%nat || (index =? total_files)%nat).
  - rewrite (bind_calls _ _ _ _ (print_calls _ s)). rewrite fmap_cons, fmap_nil.
    destruct (perform _ s) as [[[]|e] s1] eqn:E; [|done].
    assert (cwd s1 = cwd s) as Hcwd.
    { cbn [perform] in E. destruct (fault _ _); [done|]. by injection E as <-. }
    rewrite bind_run, blame_file_run, IH, Hcwd. reflexivity.
  - rewrite bind_run, ret_run. cbn [fmap list_fmap perform].
    rewrite bind_run, blame_file_run, IH. reflexivity.
Qed.

(** *** The analysis *)

Lemma report_calls (grouped_counts : counter) (s : process) :
  report grouped_counts s
  = perform [Frame grouped_counts;
             Print (NEWLINE ++ str "Lines of Code per Author/Group:");
             Print (to_string (sort_values grouped_counts));
             Plot (figure_of (sort_values grouped_counts))] s.
Proof.
  unfold report. rewrite bind_run. unfold pd_frame.
  change [Frame ?t; Print ?a; Print ?b; Plot ?c]
    with ([Frame t] ++ [Print a] ++ [Print b] ++ [Plot c]).
  rewrite perform_app. cbn [perform].
  destruct (fault s (Frame grouped_counts)); [done|]. cbn [after_call].
  rewrite (bind_calls _ _ _ _ (print_calls _ s)).
  rewrite perform_app.
  destruct (perform [Print _] s) as [[[]|e] s1]; [|done].
  rewrite (bind_calls _ _ _ _ (print_calls _ s1)), perform_app.
  destruct (perform [Print _] s1) as [[[]|e] s2]; [|done].
  apply plt_show_calls.
Qed.

Lemma analyse_calls (group_mapping : gmap text text) (s : process) :
  analyse group_mapping s
  = match run (cwd s) [str "git"; str "ls-files"] with
    | Raise e => (Raise e, s)
    | Return result =>
        if returncode result =? 0 then
          perform (analysis_calls group_mapping (cwd s) result) s
        else
          (Raise (RuntimeError (str "Failed to get list of files: "
                                ++ stderr result)), s)
    end.
Proof.
  unfold analyse. rewrite bind_run. unfold subprocess_run.
  destruct (run (cwd s) [str "git"; str "ls-files"]) as [r|e]; [|done].
  destruct (returncode r =? 0); cbn [negb]; [|done].
  unfold analysis_calls. cbv zeta.
  set (files := splitlines (stdout r)).
  rewrite !fmap_app, fmap_cons, fmap_nil, <- !app_assoc.
  rewrite (bind_calls _ _ _ _ (print_calls _ s)), perform_app.
  destruct (perform [Print _] s) as [[[]|e] s1] eqn:E1; [|done].
  assert (cwd s1 = cwd s) as Hcwd.
  { cbn [perform] in E1. destruct (fault _ _); [done|]. by injection E1 as <-. }
  rewrite (bind_returning _ _ _ _ _ (blame_files_calls _ _ _ _ s1)), perform_app.
  rewrite Hcwd.
  destruct (perform (Print <$> progress _ _ _) s1) as [[[]|e] s2]; [|done].
  rewrite (bind_calls _ _ _ _ (print_calls _ s2)).
  rewrite fmap_cons, fmap_nil, perform_app.
  destruct (perform [Print _] s2) as [[[]|e] s3]; [|done].
  destruct (bool_decide (aggregate (cwd s) [] files = [])).
  - apply print_calls.
  - apply report_calls.
Qed.

(** *** [main] *)

Lemma main_invalid_directory_any (repo_path : text) (grouping_file : option text)
    (s : process) :
  isdir (cwd s) repo_path = false ->
  main repo_path grouping_file s
  = (Raise (ValueError (str "Path " ++ repo_path
                        ++ str " is not a valid directory")), s).
Proof.
  intros H. unfold main. rewrite bind_run. unfold os_path_isdir. by rewrite H.
Qed.

Lemma main_not_a_repository_any (repo_path : text) (grouping_file : option text)
    (s : process) :
  isdir (cwd s) repo_path = true ->
  isdir (cwd s) (os_path_join repo_path (str ".git")) = false ->
  main repo_path grouping_file s
  = (Raise (ValueError (str "Path " ++ repo_path
                        ++ str " is not a Git repository")), s).
Proof.
  intros Hd Hg. unfold main. rewrite bind_run. unfold os_path_isdir at 1.
  rewrite Hd. cbn [negb]. rewrite bind_run. unfold os_path_isdir. by rewrite Hg.
Qed.

(** Past the two checks, [main] makes its calls before the [try] and then
    is the [try ... finally] around the analysis. *)
Lemma main_before_try (repo_path : text) (grouping_file : option text)
    (s : process) :
  isdir (cwd s) repo_path = true ->
  isdir (cwd s) (os_path_join repo_path (str ".git")) = true ->
  let root := os_path_join (cwd s) repo_path in
  main repo_path grouping_file s
  = match perform (calls_before_try repo_path grouping_file s) s with
    | (Raise e, s') => (Raise e, s')
    | (Return _, s1) =>
        try_finally
          (analyse (loaded_mapping root (grouping_path grouping_file root)))
          (os_chdir (cwd s)) s1
    end.
Proof.
  intros Hd Hg root. unfold main. rewrite bind_run. unfold os_path_isdir at 1.
  rewrite Hd. cbn [negb]. rewrite bind_run. unfold os_path_isdir.
  rewrite Hg. cbn [negb].
  unfold calls_before_try, preamble. cbv zeta. fold root.
  rewrite !fmap_app, fmap_cons, fmap_nil.
  cbn [app perform]. rewrite bind_run. unfold os_getcwd.
  destruct (fault s Getcwd); [done|]. cbn [after_call].
  rewrite (bind_calls _ _ _ _ (os_chdir_calls _ s)). cbn [perform].
  destruct (fault s (Chdir repo_path)); [done|]. cbn [after_call].
  rewrite bind_run, choose_grouping_file_exact.
  change (cwd (entered repo_path s)) with root.
  rewrite (bind_calls _ _ _ _ (print_calls _ _)). cbn [perform].
  destruct (fault _ (Print _)); [done|]. cbn [after_call].
  rewrite (bind_returning _ _ _ _ _ (load_calls _ _)), perform_app.
  change (cwd (printed _ (entered repo_path s))) with root.
  destruct (perform (Print <$> loader_lines _ _) _) as [[[]|e] s1]; [|done].
  rewrite fmap_cons, fmap_nil.
  rewrite (bind_calls _ _ _ _ (print_calls _ s1)).
  by destruct (perform [Print _] s1) as [[[]|e] s2].
Qed.

Lemma cwd_before_try (repo_path : text) (grouping_file : option text)
    (s : process) :
  cwd (after_calls (calls_before_try repo_path grouping_file s) s)
  = os_path_join (cwd s) repo_path.
Proof.
  unfold calls_before_try. rewrite after_calls_app, cwd_after_prints. reflexivity.
Qed.

Lemma try_finally_chdir_any {A} (body : M A) (dir : text) (s : process) :
  try_finally body (os_chdir dir) s
  = match fault (body s).2 (Chdir dir) with
    | Some e => (Raise e, (body s).2)
    | None => ((body s).1, entered dir (body s).2)
    end.
Proof.
  unfold try_finally, os_chdir. destruct (body s) as [r s1]. cbn [fst snd].
  by destruct (fault s1 (Chdir dir)).
Qed.

(** Past the two checks: either every unguarded call returns, and the run
    ends as [git ls-files] lets it, in the process that the calls leave; or
    one of them raises, and the run raises what one of its calls raises. *)
Lemma main_cases (repo_path : text) (grouping_file : option text) (s : process) :
  isdir (cwd s) repo_path = true ->
  isdir (cwd s) (os_path_join repo_path (str ".git")) = true ->
  let calls := unguarded_calls repo_path grouping_file s in
  (~ refused calls s
   /\ main repo_path grouping_file s
      = (listing_outcome (os_path_join (cwd s) repo_path), after_calls calls s))
  \/ (refused calls s
      /\ exists s0 c e s',
           c ∈ calls /\ fault s0 c = Some e
           /\ main repo_path grouping_file s = (Raise e, s')).
Proof.
  intros Hd Hg calls. subst calls. unfold unguarded_calls.
  rewrite Hd, Hg. cbn [andb].
  rewrite (main_before_try _ _ _ Hd Hg). cbv zeta.
  set (root := os_path_join (cwd s) repo_path).
  set (before := calls_before_try repo_path grouping_file s).
  set (gm := loaded_mapping root (grouping_path grouping_file root)).
  destruct (perform_cases before s)
    as [[Hb ->]|(pre & c & post & e & Hsplit & _ & Hc & ->)].
  2:{ right. split.
      - apply refused_app. left. exists pre, c, post. split; [done|].
        by rewrite Hc.
      - exists (after_calls pre s), c, e, (after_calls pre s).
        split; [|done]. apply elem_of_app. left. rewrite Hsplit.
        apply elem_of_app. right. apply elem_of_cons. by left. }
  set (s1 := after_calls before s).
  assert (Hroot : cwd s1 = root) by apply cwd_before_try.
  assert (Hlast : forall cs s2,
            fault s2 (Chdir (cwd s)) = None -> ~ refused cs s1 ->
            s2 = after_calls cs s1 ->
            ~ refused (before ++ cs ++ [Chdir (cwd s)]) s).
  { intros cs s2 Hback Hcs ->. rewrite !refused_app, refused_cons.
    intros [H|[H|[H|H]]]; [done | done | done | by apply refused_nil in H]. }
  assert (Hraise : forall cs s2 e,
            fault s2 (Chdir (cwd s)) = Some e -> s2 = after_calls cs s1 ->
            refused (before ++ cs ++ [Chdir (cwd s)]) s).
  { intros cs s2 e Hchdir ->. exists (before ++ cs), (Chdir (cwd s)), [].
    split; [by rewrite <- app_assoc|].
    rewrite after_calls_app. fold s1. by rewrite Hchdir. }
  assert (Hback : forall cs s2 e,
            fault s2 (Chdir (cwd s)) = Some e ->
            Chdir (cwd s) ∈ before ++ cs ++ [Chdir (cwd s)]).
  { intros cs s2 e _. rewrite !elem_of_app. right. right.
    apply elem_of_cons. by left. }
  rewrite try_finally_chdir_any, analyse_calls, Hroot.
  unfold calls_in_try, listing_outcome. fold gm.
  destruct (run root [str "git"; str "ls-files"]) as [r|e0].
  2:{ cbn [fst snd].
      destruct (fault s1 (Chdir (cwd s))) as [e|] eqn:Hchdir.
      - right. split; [by apply (Hraise [] s1 e)|].
        exists s1, (Chdir (cwd s)), e, s1. split; [by eapply Hback|done].
      - left. split; [by apply (Hlast [] s1 Hchdir (refused_nil s1))|].
        cbn [app]. by rewrite after_calls_app. }
  destruct (returncode r =? 0).
  2:{ cbn [fst snd].
      destruct (fault s1 (Chdir (cwd s))) as [e|] eqn:Hchdir.
      - right. split; [by apply (Hraise [] s1 e)|].
        exists s1, (Chdir (cwd s)), e, s1. split; [by eapply Hback|done].
      - left. split; [by apply (Hlast [] s1 Hchdir (refused_nil s1))|].
        cbn [app]. by rewrite after_calls_app. }
  destruct (perform_cases (analysis_calls gm root r) s1)
    as [[Ha ->]|(pre & c & post & e & Hsplit & _ & Hc & ->)]; cbn [fst snd].
  - destruct (fault (after_calls (analysis_calls gm root r) s1)
                    (Chdir (cwd s))) as [e|] eqn:Hchdir.
    + right. split; [by eapply Hraise|].
      eexists _, (Chdir (cwd s)), e, _. split; [by eapply Hback|done].
    + left. split; [by eapply Hlast|]. by rewrite !after_calls_app.
  - assert (Href : refused (before ++ analysis_calls gm root r
                            ++ [Chdir (cwd s)]) s).
    { exists (before ++ pre), c, (post ++ [Chdir (cwd s)]). split.
      - rewrite Hsplit. by rewrite <- !app_assoc.
      - rewrite after_calls_app. fold s1. by rewrite Hc. }
    right. split; [done|].
    destruct (fault (after_calls pre s1) (Chdir (cwd s))) as [e'|] eqn:Hchdir.
    + eexists _, (Chdir (cwd s)), e', _. split; [by eapply Hback|done].
    + eexists _, c, e, _. split; [|done].
      rewrite !elem_of_app. right. left. rewrite Hsplit.
      apply elem_of_app. right. apply elem_of_cons. by left.
Qed.

End Faulty.

(** ** Runs in which calls raise *)

Section Refused.
Context `{U : Unicode} `{OS : System} `{F : Faults}.

Lemma no_faults_refuse_nothing (cs : list call) (s : process) :
  ~ refused (F:=no_faults) cs s.
Proof. intros (before & c & after & _ & Hc). by apply Hc. Qed.

(** While no unguarded call raises, the run is the run in which none can. *)
Lemma main_agrees (repo_path : text) (grouping_file : option text)
    (s : process) :
  ~ refused (unguarded_calls repo_path grouping_file s) s ->
  main repo_path grouping_file s
  = main (F:=no_faults) repo_path grouping_file s.
Proof.
  intros Hok.
  destruct (isdir (cwd s) repo_path) eqn:Hd.
  2:{ by rewrite !main_invalid_directory_any. }
  destruct (isdir (cwd s) (os_path_join repo_path (str ".git"))) eqn:Hg.
  2:{ by rewrite !main_not_a_repository_any. }
  destruct (main_cases repo_path grouping_file s Hd Hg) as [[_ ->]|[Href _]].
  2:{ done. }
  destruct (main_cases (F:=no_faults) repo_path grouping_file s Hd Hg)
    as [[_ ->]|[Href _]]; [done|].
  by apply no_faults_refuse_nothing in Href.
Qed.

Lemma no_calls_when_a_check_fails (repo_path : text)
    (grouping_file : option text) (s : process) :
  isdir (cwd s) repo_path = false
  \/ isdir (cwd s) (os_path_join repo_path (str ".git")) = false ->
  unguarded_calls repo_path grouping_file s = [].
Proof.
  unfold unguarded_calls. intros [->| ->]; [done|]. by rewrite andb_false_r.
Qed.

(** C4, amended.  [main] raises exactly when [repo_path] is not an existing
    directory, or has no [.git] subdirectory, or [git ls-files] fails in it
    (it raises, or exits non-zero), or one of the calls that the run makes
    outside every [try ... except] raises: [os.getcwd], [os.chdir], a
    [print], the making of the table, the charting.  When a check fails the
    run raises the [ValueError] that names the path, in the process as it
    found it.  When one of the calls raises, the run raises what one of its
    calls raises.  When none does, the run ends as [git ls-files] lets it,
    with the exception of [subprocess.run] or the [RuntimeError] that
    carries the standard error of [git ls-files], and is the run of the
    script in which no call can raise.  In every other case [main] returns:
    when the aggregation counted nothing, the last line it printed is the
    no-data message and it showed no figure; otherwise it showed one figure,
    that of the sorted grouped counts. *)
Theorem main_aborts_on_fatal_conditions_and_refused_calls
    (repo_path : text) (grouping_file : option text) (s : process) :
  let root := os_path_join (cwd s) repo_path in
  let git_dir := os_path_join repo_path (str ".git") in
  let fatal :=
    isdir (cwd s) repo_path = false \/ isdir (cwd s) git_dir = false
    \/ listing_fails root in
  let calls := unguarded_calls repo_path grouping_file s in
  let outcome := main repo_path grouping_file s in
  ((exists e, outcome.1 = Raise e) <-> fatal \/ refused calls s)
  /\ (isdir (cwd s) repo_path = false ->
      outcome = (Raise (ValueError (str "Path " ++ repo_path
                                    ++ str " is not a valid directory")), s))
  /\ (isdir (cwd s) repo_path = true -> isdir (cwd s) git_dir = false ->
      outcome = (Raise (ValueError (str "Path " ++ repo_path
                                    ++ str " is not a Git repository")), s))
  /\ (refused calls s ->
      exists s' c e,
        c ∈ calls /\ fault s' c = Some e /\ outcome.1 = Raise e)
  /\ (~ refused calls s ->
      outcome = main (F:=no_faults) repo_path grouping_file s
      /\ (isdir (cwd s) repo_path = true -> isdir (cwd s) git_dir = true ->
          outcome.2 = after_calls calls s
          /\ match run root [str "git"; str "ls-files"] with
             | Raise e => outcome.1 = Raise e
             | Return result =>
                 returncode result <> 0 ->
                 outcome.1
                 = Raise (RuntimeError (str "Failed to get list of files: "
                                        ++ stderr result))
             end))
  /\ (~ fatal -> ~ refused calls s ->
      outcome.1 = Return tt
      /\ let author_counts := aggregate root [] (tracked_files root) in
         let group_mapping :=
           loaded_mapping root (grouping_path grouping_file root) in
         (author_counts = [] ->
          last (console outcome.2)
          = Some (str "No data available for statistics.")
          /\ shown outcome.2 = shown s)
         /\ (author_counts <> [] ->
             shown outcome.2
             = shown s ++ [figure_of (sort_values
                                        (group_counts group_mapping
                                                      author_counts))])).
Proof.
  intros root git_dir fatal calls outcome.
  assert (Hagree : ~ refused calls s ->
                   outcome = main (F:=no_faults) repo_path grouping_file s)
    by apply main_agrees.
  destruct (isdir (cwd s) repo_path) eqn:Hd.
  2:{ assert (E : outcome = (Raise (ValueError (str "Path " ++ repo_path
                               ++ str " is not a valid directory")), s))
        by by apply main_invalid_directory_any.
      assert (Hnone : ~ refused calls s).
      { subst calls. rewrite no_calls_when_a_check_fails by by left.
        apply refused_nil. }
      split; [|split; [|split; [|split; [|split]]]]; try done.
      - rewrite E. split; [intros _; left; by left | intros _; by eexists].
      - intros Hnr. split; [by apply Hagree | done].
      - intros Hnf. exfalso. apply Hnf. by left. }
  destruct (isdir (cwd s) git_dir) eqn:Hg.
  2:{ assert (E : outcome = (Raise (ValueError (str "Path " ++ repo_path
                               ++ str " is not a Git repository")), s))
        by by apply main_not_a_repository_any.
      assert (Hnone : ~ refused calls s).
      { subst calls. rewrite no_calls_when_a_check_fails by by right.
        apply refused_nil. }
      split; [|split; [|split; [|split; [|split]]]]; try done.
      - rewrite E. split; [intros _; left; right; by left | intros _; by eexists].
      - intros Hnr. split; [by apply Hagree | done].
      - intros Hnf. exfalso. apply Hnf. right. by left. }
  pose proof (main_cases repo_path grouping_file s Hd Hg) as Hcases.
  cbv zeta in Hcases. fold root calls outcome in Hcases.
  destruct Hcases as [[Hnone E]|[Href (s0 & c & e & s' & Hin & Hc & E)]].
  2:{ split; [|split; [|split; [|split; [|split]]]]; try done.
      - split; [intros _; by right|]. intros _. exists e. by rewrite E.
      - intros _. exists s0, c, e. by rewrite E. }
  assert (Hfails : listing_fails root
                   <-> exists e, listing_outcome root = Raise e).
  { unfold listing_fails, listing_outcome.
    destruct (run root [str "git"; str "ls-files"]) as [r|e].
    - destruct (Z.eqb_spec (returncode r) 0) as [Hrc|Hrc].
      + split; [done|]. by intros [e ?].
      + split; [by eexists | done].
    - split; [by eexists | done]. }
  split; [|split; [|split; [|split; [|split]]]]; try done.
  - rewrite E. cbn [fst]. rewrite <- Hfails. split; [intros H; left; by do 2 right|].
    by intros [[?|[?|?]]|?].
  - intros _. split; [by apply Hagree|]. intros _ _. rewrite E. cbn [fst snd].
    split; [done|]. unfold listing_outcome.
    destruct (run root [str "git"; str "ls-files"]) as [r|e]; [|done].
    intros Hrc. by destruct (Z.eqb_spec (returncode r) 0).
  - intros Hnf _. assert (Hls : ~ listing_fails root).
    { intros H. apply Hnf. by do 2 right. }
    rewrite E. cbn [fst snd].
    unfold listing_fails, listing_outcome, tracked_files in *.
    subst calls. unfold unguarded_calls, calls_in_try.
    rewrite Hd. fold git_dir. rewrite Hg. cbn [andb]. fold root.
    destruct (run root [str "git"; str "ls-files"]) as [r|e]; [|done].
    destruct (Z.eqb_spec (returncode r) 0) as [Hrc|Hrc]; [|done].
    split; [done|]. cbv zeta.
    rewrite shown_after_calls, console_after_calls.
    unfold calls_before_try, analysis_calls. cbv zeta.
    rewrite !figures_shown_app, !lines_printed_app.
    rewrite !figures_shown_prints, !lines_printed_prints.
    change (figures_shown [Getcwd; Chdir repo_path]) with (@nil figure).
    change (figures_shown [Chdir (cwd s)]) with (@nil figure).
    change (lines_printed [Chdir (cwd s)]) with (@nil text).
    rewrite !app_nil_r, !app_nil_l.
    case_bool_decide as Hac.
    + split; [|done]. intros _.
      change (figures_shown [Print ?l]) with (@nil figure).
      change (lines_printed [Print ?l]) with [l].
      split; [|by rewrite app_nil_r].
      rewrite !app_assoc. apply last_snoc.
    + split; [done|]. intros _. reflexivity.
Qed.

(** C5, where the code departs from it.  [os.chdir(repo_path)] is line 67
    and the [try] whose [finally] changes back begins at line 78; the
    prints of lines 75 and 77 and those of the loader (lines 30 and 46) are
    in between.  When one of them raises, the run raises what it raises and
    ends with the repository root as working directory: nothing has changed
    back.  No figure has been shown. *)
Theorem refused_print_leaves_the_repository_root
    (repo_path : text) (grouping_file : option text) (s : process) :
  isdir (cwd s) repo_path = true ->
  isdir (cwd s) (os_path_join repo_path (str ".git")) = true ->
  fault s Getcwd = None ->
  fault s (Chdir repo_path) = None ->
  let root := os_path_join (cwd s) repo_path in
  refused (Print <$> preamble grouping_file root) (entered repo_path s) ->
  let outcome := main repo_path grouping_file s in
  (exists s' line e,
     line ∈ preamble grouping_file root
     /\ fault s' (Print line) = Some e
     /\ outcome.1 = Raise e)
  /\ cwd outcome.2 = root
  /\ shown outcome.2 = shown s.
Proof.
  intros Hd Hg Hget Hcd root Href outcome. subst outcome.
  rewrite (main_before_try _ _ _ Hd Hg). cbv zeta. fold root.
  unfold calls_before_try. fold root.
  change ([Getcwd; Chdir repo_path] ++ ?l) with (Getcwd :: Chdir repo_path :: l).
  cbn [perform after_call]. rewrite Hget. cbn [after_call]. rewrite Hcd.
  destruct (perform_raises _ _ Href)
    as (before & c & after & e & Hsplit & Hc & ->).
  apply fmap_app_inv in Hsplit as (l1 & l2 & -> & Hl2 & Hpre).
  destruct l2 as [|x l2]; [done|]. injection Hl2 as -> ->.
  cbn [fst snd]. split; [|split].
  - eexists _, x, e. split; [|done]. rewrite Hpre.
    apply elem_of_app. right. apply elem_of_cons. by left.
  - by rewrite cwd_after_prints.
  - by rewrite shown_after_calls, figures_shown_prints, app_nil_r.
Qed.

(** X18.  From the [try] on the working directory is safe: when the calls
    before the [try] have returned and the [os.chdir] of the [finally]
    returns, the run ends in the directory it started in (an absolute path,
    as [os.getcwd()] reports it), whatever happens in between: [git
    ls-files] failing, a [print] raising, the charting raising. *)
Theorem finally_restores_the_working_directory
    (repo_path : text) (grouping_file : option text) (s : process) :
  startswith (cwd s) (str "/") = true ->
  ~ refused (calls_before_try repo_path grouping_file s) s ->
  (forall s', fault s' (Chdir (cwd s)) = None) ->
  cwd (main repo_path grouping_file s).2 = cwd s.
Proof.
  intros Habs Hpre Hback.
  destruct (isdir (cwd s) repo_path) eqn:Hd.
  2:{ by rewrite main_invalid_directory_any. }
  destruct (isdir (cwd s) (os_path_join repo_path (str ".git"))) eqn:Hg.
  2:{ by rewrite main_not_a_repository_any. }
  rewrite (main_before_try _ _ _ Hd Hg). cbv zeta.
  rewrite (perform_returns _ _ Hpre).
  rewrite try_finally_chdir_any, Hback. cbn [snd entered cwd].
  by apply os_path_join_absolute.
Qed.

(** X19.  The loader raises only what its own [print] raises: when the
    file is missing or unreadable and the console takes the one line, it
    returns the empty mapping; when the console refuses the line, the
    exception leaves the loader (line 30 is outside the [try], line 46 in
    the [except] clause) and nothing has been printed; a file that is read
    prints nothing and cannot raise. *)
Theorem loader_raises_what_its_print_raises (path : text) (s : process) :
  ((forall line,
      line ∈ loader_lines (cwd s) path -> fault s (Print line) = None) ->
   load_grouping_mapping path s
   = (Return (loaded_mapping (cwd s) path),
      printed (loader_lines (cwd s) path) s))
  /\ (forall line e,
        line ∈ loader_lines (cwd s) path -> fault s (Print line) = Some e ->
        load_grouping_mapping path s = (Raise e, s))
  /\ (forall file_lines,
        isfile (cwd s) path = true ->
        read_lines (cwd s) path = Return file_lines ->
        load_grouping_mapping path s
        = (Return (foldl grouping_line ∅ file_lines), s)).
Proof.
  rewrite load_calls. split; [|split].
  - intros Hok. rewrite perform_returns; [by rewrite after_prints|].
    revert Hok. unfold loader_lines.
    destruct (isfile (cwd s) path).
    + destruct (read_lines (cwd s) path) as [file_lines|e'].
      * intros _. apply refused_nil.
      * intros Hok. rewrite fmap_cons, fmap_nil, refused_cons.
        intros [H|H]; [|by apply refused_nil in H].
        apply H, Hok, list_elem_of_singleton. reflexivity.
    + intros Hok. rewrite fmap_cons, fmap_nil, refused_cons.
      intros [H|H]; [|by apply refused_nil in H].
      apply H, Hok, list_elem_of_singleton. reflexivity.
  - intros line e. unfold loader_lines.
    destruct (isfile (cwd s) path).
    + destruct (read_lines (cwd s) path) as [file_lines|e'].
      * intros Hin. by apply elem_of_nil in Hin.
      * intros ->%list_elem_of_singleton Hline. cbn [fmap list_fmap perform].
        by rewrite Hline.
    + intros ->%list_elem_of_singleton Hline. cbn [fmap list_fmap perform].
      by rewrite Hline.
  - intros file_lines Hfile Hread. unfold loader_lines, loaded_mapping.
    by rewrite Hfile, Hread.
Qed.

End Refused.

(** ** The small repository, run *)

Lemma fragment_nfkc_ascii (s : text) :
  is_ascii s -> flat_map compatibility s = s.
Proof.
  induction 1 as [|c s Hc _ IH]; [done|]. cbn [flat_map]. rewrite IH.
  unfold compatibility.
  rewrite (proj2 (N.eqb_neq c 0x2120)), (proj2 (N.eqb_neq c 0x2122)) by lia.
  reflexivity.
Qed.

(** [main] on the small repository: the run from the checks to the chart. *)
Example demo_main_run :
  main (U:=unicode_fragment) (OS:=demo_system) (str "/work/repo") None
       demo_process
  = (Return tt,
     {| cwd := str "/home/dev";
        console :=
          [str "Looking for grouping file at: /opt/tool/grouping.txt";
           str "Loaded 2 mappings";
           str "Found 2 files to analyze.";
           str "Processing file 2/2: logo.png";
           str "Processing complete.";
           NEWLINE ++ str "Lines of Code per Author/Group:";
           str "Jane Doe 1" ++ NEWLINE];
        shown := [figure_of [(str "Jane Doe", 1)]] |}).
Proof. vm_compute. reflexivity. Qed.

(** A path that is no repository: the run stops at the second check. *)
Example demo_main_not_a_repository :
  main (U:=unicode_fragment) (OS:=demo_system) (str "/opt/tool") None
       demo_process
  = (Raise (ValueError (str "Path /opt/tool is not a Git repository")),
     demo_process).
Proof. vm_compute. reflexivity. Qed.

(** *** The theorems above at the small repository

    Each lemma below applies one theorem to the fragment of the Unicode
    database and to the small repository, with its hypotheses discharged
    there. *)

Lemma grouped_counts_partition_author_counts_witness :
  Counter.total
    (group_counts (U:=unicode_fragment) {[ str "x" := str "B" ]}
                  [(str "X", 2); (str "y", 3); (str " x ", 1)])
  = 6.
Proof.
  exact (proj1 (grouped_counts_partition_author_counts
                  (U:=unicode_fragment) {[ str "x" := str "B" ]}
                  [(str "X", 2); (str "y", 3); (str " x ", 1)])).
Defined.

Lemma normalize_name_service_mark_witness :
  @normalize_name unicode_fragment [0x2120%N] = str "SM"
  /\ @normalize_name unicode_fragment (str "SM") = str "sm"
  /\ @normalize_name unicode_fragment (@normalize_name unicode_fragment [0x2120%N])
     <> @normalize_name unicode_fragment [0x2120%N].
Proof.
  exact (normalize_name_service_mark (U:=unicode_fragment)
           eq_refl eq_refl eq_refl eq_refl).
Defined.

Lemma normalize_name_on_ascii_witness :
  @normalize_name unicode_fragment (str " Jane ")
  = @normalize_name unicode_fragment (str "Jane")
  /\ @normalize_name unicode_fragment (str "Jane")
     = @normalize_name unicode_fragment (str "jane").
Proof.
  exact (proj2 (normalize_name_on_ascii (U:=unicode_fragment)
                  (fun s _ => eq_refl) fragment_nfkc_ascii)).
Defined.

Lemma later_grouping_line_wins_witness :
  isfile (System:=demo_system) (cwd demo_process) (str "/opt/tool/grouping.txt")
  = true
  /\ exists mapping,
       load_grouping_mapping (U:=unicode_fragment) (OS:=demo_system)
         (str "/opt/tool/grouping.txt") demo_process
       = (Return mapping, demo_process)
       /\ mapping !! @normalize_name unicode_fragment (str "x") = Some (str "B").
Proof.
  split; [reflexivity|].
  exact (proj2 (later_grouping_line_wins
                  (U:=unicode_fragment) (OS:=demo_system)
                  (str "/opt/tool/grouping.txt") demo_process eq_refl)
               eq_refl).
Defined.

Lemma missing_grouping_file_is_not_fatal_witness :
  isfile (System:=demo_system) (cwd demo_process) (str "/tmp/grouping.txt")
  = false
  /\ exists line,
       load_grouping_mapping (U:=unicode_fragment) (OS:=demo_system)
         (str "/tmp/grouping.txt") demo_process
       = (Return ∅, printed [line] demo_process).
Proof.
  split; [reflexivity|].
  exact (proj1 (missing_grouping_file_is_not_fatal
                  (U:=unicode_fragment) (OS:=demo_system)
                  (str "/tmp/grouping.txt") demo_process
                  (or_introl eq_refl))).
Defined.

Lemma failed_blame_skips_the_file_witness :
  blame_fails (OS:=demo_system) (str "/work/repo") (str "logo.png")
  /\ blame_file (OS:=demo_system) [(str "Jane Doe", 1)] (str "logo.png")
                (entered (str "/work/repo") demo_process)
     = (Return [(str "Jane Doe", 1)], entered (str "/work/repo") demo_process).
Proof.
  assert (H : blame_fails (OS:=demo_system) (str "/work/repo") (str "logo.png")).
  { vm_compute. right. reflexivity. }
  split; [exact H|].
  exact (proj1 (failed_blame_skips_the_file (OS:=demo_system)
                  (str "logo.png") (entered (str "/work/repo") demo_process) H)
               [(str "Jane Doe", 1)]).
Defined.

Lemma blank_author_is_counted_witness :
  Forall (fun c => isspace c = true) (str "  ")
  /\ Counter.count [] (blame_line [(str "Jane Doe", 1)] (str "author   ")) = 1.
Proof.
  assert (H : Forall (fun c => isspace c = true) (str "  ")).
  { repeat constructor. }
  split; [exact H|].
  exact (proj1 (blank_author_is_counted (U:=unicode_fragment)
                  [(str "Jane Doe", 1)] (str "  ") ∅ H)).
Defined.

Lemma blame_line_counts_author_headers_witness :
  startswith (str "author-mail <jane@x.com>") (str "author ") = false
  /\ blame_line [(str "Jane Doe", 1)] (str "author-mail <jane@x.com>")
     = [(str "Jane Doe", 1)].
Proof.
  split; [reflexivity|].
  exact (proj1 (proj2 (blame_line_counts_author_headers [(str "Jane Doe", 1)]))
               (str "author-mail <jane@x.com>") eq_refl).
Defined.

Lemma skipped_lines_leave_the_mapping_witness :
  exists name aliases_str aliases,
    strip (str "Core: Jane Doe, jdoe ,," ++ NEWLINE)
    = name ++ chr ":" :: aliases_str
    /\ parse_grouping_line (str "Core: Jane Doe, jdoe ,," ++ NEWLINE)
       = Some (strip name, aliases)
    /\ aliases = [str "Jane Doe"; str "jdoe"]
    /\ (forall key,
          grouping_line (U:=unicode_fragment) {[ str "x" := str "B" ]}
                        (str "Core: Jane Doe, jdoe ,," ++ NEWLINE) !! key
          = if decide (key ∈ normalize_name (U:=unicode_fragment) <$> aliases)
            then Some (strip name)
            else ({[ str "x" := str "B" ]} : gmap text text) !! key).
Proof.
  destruct (proj1 (proj2 (proj2 (proj2 (proj2 (proj2 (proj2
              (skipped_lines_leave_the_mapping
                 (U:=unicode_fragment) {[ str "x" := str "B" ]})))))))
              (str "Core: Jane Doe, jdoe ,," ++ NEWLINE)
              ltac:(vm_compute; discriminate) eq_refl eq_refl)
    as (name & aliases_str & aliases & E & _ & _ & _ & Hp & _ & _ & Hk).
  exists name, aliases_str, aliases.
  split; [exact E|]. split; [exact Hp|]. split; [|exact Hk].
  assert (Hq : parse_grouping_line (str "Core: Jane Doe, jdoe ,," ++ NEWLINE)
               = Some (str "Core", [str "Jane Doe"; str "jdoe"]))
    by reflexivity.
  rewrite Hq in Hp. by injection Hp as _ <-.
Defined.

Lemma empty_repository_reports_no_data_witness :
  (main (U:=unicode_fragment) (OS:=empty_repository) (str "/work/repo") None
        demo_process).1
  = Return tt
  /\ shown (main (U:=unicode_fragment) (OS:=empty_repository) (str "/work/repo")
                 None demo_process).2
     = [].
Proof.
  pose proof (empty_repository_reports_no_data
                (U:=unicode_fragment) (OS:=empty_repository)
                (str "/work/repo") None demo_process
                {| returncode := 0; stdout := []; stderr := [] |}
                eq_refl eq_refl eq_refl eq_refl eq_refl) as (H1 & _ & H3).
  split; [exact H1 | exact H3].
Defined.

(** *** The further properties at the small repository *)

Lemma normalize_name_ignores_padding_witness :
  @normalize_name unicode_fragment (str "  " ++ str "Jane" ++ TAB)
  = @normalize_name unicode_fragment (str "Jane").
Proof.
  apply (normalize_name_ignores_padding (U:=unicode_fragment));
    repeat constructor.
Defined.

Lemma grouping_line_splits_at_first_colon_witness :
  parse_grouping_line (str " Team: a:b, c" ++ NEWLINE)
  = Some (str "Team", [str "a:b"; str "c"]).
Proof.
  exact (grouping_line_splits_at_first_colon
           (str " Team: a:b, c" ++ NEWLINE) (str "Team") (str " a:b, c")
           eq_refl eq_refl eq_refl).
Defined.

Lemma grouping_line_registers_its_aliases_witness :
  grouping_line (U:=unicode_fragment) ∅ (str "B: X")
  !! @normalize_name unicode_fragment (str "X")
  = Some (str "B").
Proof.
  refine (proj1 (grouping_line_registers_its_aliases (U:=unicode_fragment)
                   ∅ (str "B: X") (str "B") [str "X"] eq_refl)
                (str "X") _).
  apply elem_of_cons. by left.
Defined.

Lemma blank_alias_list_registers_nothing_witness :
  grouping_line (U:=unicode_fragment) {[ str "x" := str "B" ]} (str "Group: , ,")
  = {[ str "x" := str "B" ]}.
Proof.
  apply (blank_alias_list_registers_nothing (U:=unicode_fragment)
           _ (str "Group: , ,") (str "Group") (str " , ,")); [reflexivity|].
  repeat constructor; first [by left | by right].
Defined.

Lemma loaded_entries_come_from_the_file_witness :
  exists line aliases alias,
    line ∈ [str "A: x, Y"; str "B: x"]
    /\ parse_grouping_line line = Some (str "A", aliases)
    /\ alias ∈ aliases
    /\ str "y" = @normalize_name unicode_fragment alias
    /\ alias <> [] /\ strip alias = alias
    /\ strip (str "A") = str "A".
Proof.
  apply (loaded_entries_come_from_the_file (U:=unicode_fragment)
           [str "A: x, Y"; str "B: x"] (str "y") (str "A")).
  vm_compute. reflexivity.
Defined.

Lemma aggregate_ignores_the_order_of_files_witness :
  Counter.count (str "Jane Doe")
    (aggregate (OS:=demo_system) (str "/work/repo") []
               [str "a.py"; str "logo.png"])
  = Counter.count (str "Jane Doe")
      (aggregate (OS:=demo_system) (str "/work/repo") []
                 [str "logo.png"; str "a.py"]).
Proof.
  exact (aggregate_ignores_the_order_of_files (OS:=demo_system)
           (str "/work/repo") [] [str "a.py"; str "logo.png"]
           [str "logo.png"; str "a.py"] (perm_swap _ _ _) (str "Jane Doe")).
Defined.

Lemma unmatched_authors_are_reported_as_they_are_witness :
  group_counts (U:=unicode_fragment) {[ str "x" := str "B" ]}
               [(str "Jane", 1); (str "jane", 2)]
  = [(str "Jane", 1); (str "jane", 2)].
Proof.
  apply (unmatched_authors_are_reported_as_they_are (U:=unicode_fragment)).
  - intros author H.
    apply elem_of_cons in H as [->|H]; [reflexivity|].
    apply elem_of_cons in H as [->|H]; [reflexivity|].
    by apply elem_of_nil in H.
  - apply NoDup_cons. split.
    + intros H. apply elem_of_cons in H as [H|H]; [discriminate H|].
      by apply elem_of_nil in H.
    + apply NoDup_singleton.
Defined.

Lemma report_groups_by_the_mapping_found_from_the_root_witness :
  shown (main (U:=unicode_fragment) (OS:=demo_system) (str "/work/repo")
              (Some (str "grouping.txt")) demo_process).2
  = [figure_of [(str "Jane Doe", 1)]].
Proof.
  refine (report_groups_by_the_mapping_found_from_the_root
            (U:=unicode_fragment) (OS:=demo_system)
            (str "/work/repo") (Some (str "grouping.txt")) demo_process
            {| returncode := 0;
               stdout := str "a.py" ++ NEWLINE ++ str "logo.png" ++ NEWLINE;
               stderr := [] |}
            eq_refl eq_refl eq_refl eq_refl _).
  vm_compute. discriminate.
Defined.

Lemma chart_accounts_for_every_blamed_line_witness :
  exists fig,
    shown (main (U:=unicode_fragment) (OS:=demo_system) (str "/work/repo") None
                demo_process).2
    = [fig]
    /\ foldr Z.add 0 (bar_height fig) = 1.
Proof.
  assert (Hac : aggregate (OS:=demo_system) (str "/work/repo") []
                  (splitlines (str "a.py" ++ NEWLINE ++ str "logo.png" ++ NEWLINE))
                <> []).
  { vm_compute. discriminate. }
  destruct (chart_accounts_for_every_blamed_line
              (U:=unicode_fragment) (OS:=demo_system)
              (str "/work/repo") None demo_process
              {| returncode := 0;
                 stdout := str "a.py" ++ NEWLINE ++ str "logo.png" ++ NEWLINE;
                 stderr := [] |}
              (fun table => merge_sort_Permutation more_lines table)
              eq_refl eq_refl eq_refl eq_refl Hac)
    as (fig & Hshown & _ & _ & Hsum & _).
  exists fig. split; [exact Hshown|]. rewrite Hsum. reflexivity.
Defined.

Lemma last_file_is_announced_witness :
  last (console
          (blame_files (OS:=demo_system) 2 1 [] [str "a.py"; str "logo.png"]
                       (entered (str "/work/repo") demo_process)).2)
  = Some (str "Processing file 2/2: logo.png").
Proof.
  exact (proj1 (last_file_is_announced (OS:=demo_system)
                  [str "a.py"; str "logo.png"] (str "logo.png") []
                  (entered (str "/work/repo") demo_process) eq_refl)).
Defined.

(** *** The runs in which a call raises, at the small repository *)

(** A run that the amended C4 accounts for and C4 does not: the name of
    the grouping file holds a lone surrogate and the console encodes
    strictly. *)
Lemma main_aborts_on_fatal_conditions_and_refused_calls_witness :
  exists s' c e,
    c ∈ unguarded_calls (U:=unicode_fragment) (OS:=demo_system)
          (str "/work/repo") (Some undecodable_path) demo_process
    /\ fault (Faults:=strict_console) s' c = Some e
    /\ (main (U:=unicode_fragment) (OS:=demo_system) (F:=strict_console)
             (str "/work/repo") (Some undecodable_path) demo_process).1
       = Raise e.
Proof.
  apply (proj1 (proj2 (proj2 (proj2
           (main_aborts_on_fatal_conditions_and_refused_calls
              (U:=unicode_fragment) (OS:=demo_system) (F:=strict_console)
              (str "/work/repo") (Some undecodable_path) demo_process))))).
  eexists [Getcwd; Chdir _],
          (Print (str "Looking for grouping file at: " ++ undecodable_path)),
          _.
  split; [reflexivity | vm_compute; discriminate].
Defined.

(** The three conditions of C4 are false and the run raises. *)
Lemma refused_print_aborts_a_valid_run :
  isdir (System:=demo_system) (cwd demo_process) (str "/work/repo") = true
  /\ isdir (System:=demo_system) (cwd demo_process)
           (os_path_join (str "/work/repo") (str ".git")) = true
  /\ ~ listing_fails (OS:=demo_system)
         (os_path_join (cwd demo_process) (str "/work/repo"))
  /\ (main (U:=unicode_fragment) (OS:=demo_system) (F:=strict_console)
           (str "/work/repo") (Some undecodable_path) demo_process).1
     = Raise (OtherError (str "'utf-8' codec can't encode character: surrogates not allowed")).
Proof.
  split; [reflexivity|]. split; [reflexivity|]. split; [|reflexivity].
  vm_compute. intros H. by apply H.
Qed.

Lemma refused_print_leaves_the_repository_root_witness :
  cwd demo_process = str "/home/dev"
  /\ cwd (main (U:=unicode_fragment) (OS:=demo_system) (F:=strict_console)
               (str "/work/repo") (Some undecodable_path) demo_process).2
     = str "/work/repo".
Proof.
  split; [reflexivity|].
  refine (proj1 (proj2 (refused_print_leaves_the_repository_root
                          (U:=unicode_fragment) (OS:=demo_system)
                          (F:=strict_console)
                          (str "/work/repo") (Some undecodable_path)
                          demo_process eq_refl eq_refl eq_refl eq_refl _))).
  eexists [],
          (Print (str "Looking for grouping file at: " ++ undecodable_path)),
          _.
  split; [reflexivity | vm_compute; discriminate].
Defined.

Lemma finally_restores_the_working_directory_witness :
  (main (U:=unicode_fragment) (OS:=demo_system) (F:=headless)
        (str "/work/repo") None demo_process).1
  = Raise (OtherError (str "no display name and no $DISPLAY environment variable"))
  /\ cwd (main (U:=unicode_fragment) (OS:=demo_system) (F:=headless)
               (str "/work/repo") None demo_process).2
     = cwd demo_process.
Proof.
  split; [reflexivity|].
  apply (finally_restores_the_working_directory
           (U:=unicode_fragment) (OS:=demo_system) (F:=headless)
           (str "/work/repo") None demo_process); [reflexivity | | done].
  intros (before & c & after & E & Hc).
  destruct c; try (by apply Hc).
  assert (Hin : Plot fig
                ∈ calls_before_try (U:=unicode_fragment) (OS:=demo_system)
                    (str "/work/repo") None demo_process).
  { rewrite E. apply elem_of_app. right. apply elem_of_cons. by left. }
  unfold calls_before_try in Hin. apply elem_of_app in Hin as [Hin|Hin].
  - apply elem_of_cons in Hin as [Hin|Hin]; [discriminate Hin|].
    apply elem_of_cons in Hin as [Hin|Hin]; [discriminate Hin|].
    by apply elem_of_nil in Hin.
  - apply list_elem_of_fmap in Hin as (line & Hline & _). discriminate Hline.
Defined.

Lemma loader_raises_what_its_print_raises_witness :
  load_grouping_mapping (U:=unicode_fragment) (OS:=demo_system)
                        (F:=strict_console) undecodable_path demo_process
  = (Raise (OtherError (str "'utf-8' codec can't encode character: surrogates not allowed")),
     demo_process).
Proof.
  apply (proj1 (proj2 (loader_raises_what_its_print_raises
                         (U:=unicode_fragment) (OS:=demo_system)
                         (F:=strict_console) undecodable_path demo_process))
               (str "Warning: Grouping file not found: " ++ undecodable_path)).
  - apply list_elem_of_here.
  - reflexivity.
Defined.
